(** * Council of agents: the orchestration engine and its agent wrapper

    A shallow embedding of [agents.py] and [workflow.py].

    - A Python [str] is a sequence of Unicode code points: [list N].
    - An awaited model call is a [Task]: the request that is sent and the
      continuation that turns the reply into the method's return value.
    - The outside world (the model provider, the order in which concurrent
      calls complete) is an [Env]; what the engine did to it is recorded in a
      [World]: the calls issued and the notifications emitted.
    - The compiled graph is interpreted superstep by superstep. *)

From Stdlib Require Import ZArith NArith List String Ascii Lia.
From Stdlib Require Import DecimalString DecimalZ DecimalPos.
From Stdlib Require Import PrimFloat.
From stdpp Require Import base option list gmap.
Import ListNotations.

Local Open Scope Z_scope.

(** ** Python strings *)

Abbreviation str := (list N).

(** A literal of the source, as code points. *)
Definition lit (s : string) : str :=
  List.map N_of_ascii (list_ascii_of_string s).
Arguments lit s%_string : simpl never.

(** [sep.join(parts)] *)
Fixpoint join (sep : str) (parts : list str) : str :=
  match parts with
  | [] => []
  | [p] => p
  | p :: rest => p ++ sep ++ join sep rest
  end.

(** [str(i)] for an [int]. *)
Definition str_of_int (i : Z) : str :=
  lit (NilZero.string_of_int (Z.to_int i)).
Arguments str_of_int : simpl never.

(** [str.isspace] on one code point: the code points [str.strip()] removes. *)
Definition isspace (c : N) : bool :=
  ((9 <=? c) && (c <=? 13) || (28 <=? c) && (c <=? 32)
   || (c =? 133) || (c =? 160) || (c =? 5760)
   || (8192 <=? c) && (c <=? 8202)
   || (c =? 8232) || (c =? 8233) || (c =? 8239) || (c =? 8287)
   || (c =? 12288))%N%bool.

Fixpoint lstrip (s : str) : str :=
  match s with
  | c :: s' => if isspace c then lstrip s' else s
  | [] => []
  end.

Definition rstrip (s : str) : str := rev (lstrip (rev s)).

(** [s.strip()] *)
Definition strip (s : str) : str := rstrip (lstrip s).

(** [s.startswith(p)] *)
Fixpoint startswith (p s : str) : bool :=
  match p, s with
  | [], _ => true
  | a :: p', b :: s' => (a =? b)%N && startswith p' s'
  | _ :: _, [] => false
  end.

(** [sep in s] *)
Fixpoint contains (sep s : str) : bool :=
  startswith sep s ||
  match s with
  | [] => false
  | _ :: s' => contains sep s'
  end.

(** The pieces around the occurrence of [sep] in [s] that starts furthest to
    the right, if there is one. *)
Fixpoint rpartition (sep s : str) : option (str * str) :=
  match s with
  | [] => if startswith sep [] then Some ([], []) else None
  | c :: s' =>
      match rpartition sep s' with
      | Some (before, after) => Some (c :: before, after)
      | None =>
          if startswith sep s then Some ([], drop (length sep) s) else None
      end
  end.

(** [s.rsplit(sep, 1)]: at most one split, at the last occurrence. *)
Definition rsplit1 (sep s : str) : list str :=
  match rpartition sep s with
  | Some (before, after) => [before; after]
  | None => [s]
  end.

(** ** Exceptions and results *)

Inductive exn : Type :=
| ValueError
| IndexError
| GraphRecursionError
| ProviderError (code : N)   (* raised by the model call *)
| CallbackError (code : N).  (* raised by the event callback *)

Inductive result (A : Type) : Type :=
| Ok (a : A)
| Raise (e : exn).
Arguments Ok {A} a.
Arguments Raise {A} e.

Definition is_ok {A} (r : result A) : Prop :=
  match r with Ok _ => True | Raise _ => False end.

(** ** agents.py *)

Definition marker : str := lit "Summary:".

(** [split_summary]: the unpacking [main, summary = ...] raises [ValueError]
    unless the split has exactly two parts. *)
Definition split_summary (text : str) : result (str * str) :=
  if contains marker text then
    match rsplit1 marker text with
    | [main; summary] => Ok (strip main, strip summary)
    | _ => Raise ValueError
    end
  else Ok (strip text, []).


Inductive BaseMessage : Type :=
| SystemMessage (content : str)
| HumanMessage (content : str).

(** The model handle an agent holds: [ChatOpenAI(model=..., temperature=...)]. *)
Record ChatOpenAI : Type := {
  model : str;
  temperature : float
}.

(** What [llm.ainvoke] returns: the reply text and, when the provider reports
    it, the usage dictionary ([None] also stands for a missing attribute). *)
Module AIMessage.
Record t : Type := {
  content : str;
  usage_metadata : option (gmap str Z)
}.
End AIMessage.

(** The values the code stores in [metadata]. *)
Inductive MetaValue : Type :=
| MStr (s : str)
| MBool (b : bool)
| MInt (i : Z)
| MDict (d : gmap str Z).

Module AgentResponse.
Record t : Type := {
  content : str;
  agent_id : str;
  agent_type : str;
  metadata : gmap str MetaValue
}.

(** [response.metadata[key] = value], on the object [response]. *)
Definition set_metadata (key : str) (value : MetaValue) (response : t) : t :=
  {| content := content response;
     agent_id := agent_id response;
     agent_type := agent_type response;
     metadata := <[key := value]> (metadata response) |}.
End AgentResponse.

Module BaseAgent.
Record t : Type := {
  agent_id : str;
  agent_type : str;
  llm : ChatOpenAI
}.

Definition __init__ (class_name agent_id model_name : str)
    (temperature : float) : t :=
  {| agent_id := agent_id;
     agent_type := class_name;
     llm := {| model := model_name; temperature := temperature |} |}.
End BaseAgent.

(** One model call in flight: what is sent, and what the awaiting method does
    with the reply. *)
Record Request : Type := {
  req_agent : BaseAgent.t;
  req_messages : list BaseMessage
}.

Record Task (A : Type) : Type := {
  request : Request;
  resume : AIMessage.t -> result A
}.
Arguments request {A} _.
Arguments resume {A} _ _.

(** Code that runs after an [await] inside the same coroutine. *)
Definition and_then {A B} (t : Task A) (k : A -> result B) : Task B :=
  {| request := request t;
     resume := fun reply =>
       match resume t reply with
       | Ok a => k a
       | Raise e => Raise e
       end |}.

(** [d.get(key, 0)] *)
Definition get0 (d : gmap str Z) (key : str) : Z := default 0 (d !! key).

(** [hasattr(response, 'usage_metadata') and response.usage_metadata] *)
Definition usage_truthy (u : option (gmap str Z)) : option (gmap str Z) :=
  match u with
  | Some d => if decide (d = ∅) then None else Some d
  | None => None
  end.

(** [BaseAgent.generate_response] *)
Definition generate_response (self : BaseAgent.t)
    (messages : list BaseMessage) : Task AgentResponse.t :=
  {| request := {| req_agent := self; req_messages := messages |};
     resume := fun response =>
       match split_summary (AIMessage.content response) with
       | Raise e => Raise e
       | Ok (text, summary) =>
           let metadata : gmap str MetaValue := ∅ in
           let metadata :=
             match summary with
             | [] => metadata
             | _ :: _ => <[lit "summary" := MStr summary]> metadata
             end in
           let metadata :=
             match usage_truthy (AIMessage.usage_metadata response) with
             | Some usage =>
                 <[lit "token_usage" :=
                     MDict (<[lit "input_tokens" := get0 usage (lit "input_tokens")]>
                           (<[lit "output_tokens" := get0 usage (lit "output_tokens")]>
                           (<[lit "total_tokens" := get0 usage (lit "total_tokens")]> ∅)))]>
                   metadata
             | None => metadata
             end in
           Ok {| AgentResponse.content := text;
                 AgentResponse.agent_id := BaseAgent.agent_id self;
                 AgentResponse.agent_type := BaseAgent.agent_type self;
                 AgentResponse.metadata := metadata |}
       end |}.

Module DraftAgent.
Definition __init__ (model_name : str) (temperature : float) : BaseAgent.t :=
  BaseAgent.__init__ (lit "DraftAgent") (lit "draft_agent") model_name temperature.

Definition create_initial_draft (self : BaseAgent.t) (user_query : str)
    : Task AgentResponse.t :=
  let messages := [
    SystemMessage (lit "You are a draft agent responsible for creating comprehensive,
            well-structured responses to user queries. Focus on clarity, accuracy, and completeness.
            Finish your reply with a single sentence summary prefixed with 'Summary:'.");
    HumanMessage user_query
  ] in
  generate_response self messages.

Definition update_draft (self : BaseAgent.t) (current_draft : str)
    (feedback : list str) : Task AgentResponse.t :=
  let feedback_text :=
    join (lit "

")
      (imap (fun i fb =>
               lit "Feedback " ++ str_of_int (Z.of_nat i + 1) ++ lit ": " ++ fb)
            feedback) in
  let messages := [
    SystemMessage (lit "You are a draft agent. Your task is to improve your draft
            based on the feedback provided by the council members. Incorporate valid suggestions
            while maintaining the overall coherence of your response.
            Finish with a single sentence summary prefixed with 'Summary:'.");
    HumanMessage (lit "Current Draft:
" ++ current_draft ++ lit "

Council Feedback:
" ++ feedback_text ++ lit "

Please provide an updated draft that addresses the feedback while maintaining quality and coherence.")
  ] in
  and_then (generate_response self messages) (fun response =>
    Ok (AgentResponse.set_metadata (lit "revision") (MBool true) response)).
End DraftAgent.

Module CouncilMember.
Record t : Type := {
  base : BaseAgent.t;
  member_id : Z;
  perspective : str
}.

(** [perspective or f"Critical Reviewer {member_id}"]: [None] and the empty
    string both take the default. *)
Definition __init__ (member_id : Z) (model_name : str) (temperature : float)
    (perspective : option str) : t :=
  {| base := BaseAgent.__init__ (lit "CouncilMember")
               (lit "council_member_" ++ str_of_int member_id)
               model_name temperature;
     member_id := member_id;
     perspective :=
       match perspective with
       | Some (c :: p) => c :: p
       | Some [] | None => lit "Critical Reviewer " ++ str_of_int member_id
       end |}.

Definition provide_feedback (self : t) (user_query current_draft : str)
    (round_number : Z) : Task AgentResponse.t :=
  let messages := [
    SystemMessage (lit "You are " ++ perspective self ++ lit ". Your role is to critically evaluate
            the draft response and provide constructive feedback. Focus on:
            - Accuracy and factual correctness
            - Completeness and coverage of the topic
            - Clarity and organization
            - Potential improvements or missing elements

            This is round " ++ str_of_int round_number ++ lit " of the review process.
            End with a one sentence summary prefixed with 'Summary:'.");
    HumanMessage (lit "User Query: " ++ user_query ++ lit "

Current Draft:
" ++ current_draft ++ lit "

Please provide specific, actionable feedback to improve this response.
Finish with a one sentence summary prefixed with 'Summary:'.")
  ] in
  and_then (generate_response (base self) messages) (fun response =>
    Ok (AgentResponse.set_metadata (lit "round") (MInt round_number) response)).
End CouncilMember.

(** One entry of a round's feedback: [{"agent_id": ..., "feedback": ...}]. *)
Record FeedbackEntry : Type := {
  fb_agent_id : str;
  fb_feedback : str
}.

Module EditorAgent.
Definition __init__ (model_name : str) (temperature : float) : BaseAgent.t :=
  BaseAgent.__init__ (lit "EditorAgent") (lit "editor_agent") model_name temperature.

Definition edit_final_response (self : BaseAgent.t) (user_query final_draft : str)
    (debate_history : list (list FeedbackEntry)) : Task AgentResponse.t :=
  let messages := [
    SystemMessage (lit "You are an expert editor. Your task is to take the final draft
            and ensure it is polished, coherent, and well-formatted. Make minor adjustments for:
            - Grammar and style consistency
            - Logical flow and transitions
            - Formatting and presentation
            - Overall coherence

            Do not make major content changes unless absolutely necessary for accuracy.
            Provide a one sentence summary of your edits prefixed with 'Summary:'.");
    HumanMessage (lit "User Query: " ++ user_query ++ lit "

Final Draft:
" ++ final_draft ++ lit "

Please provide the polished, final version of this response.")
  ] in
  and_then (generate_response self messages) (fun response =>
    Ok (AgentResponse.set_metadata (lit "final") (MBool true) response)).
End EditorAgent.

(** [JudgeAgent]: defined beside the other roles; the workflow builds none. *)
Module JudgeAgent.
Definition __init__ (model_name : str) (temperature : float) : BaseAgent.t :=
  BaseAgent.__init__ (lit "JudgeAgent") (lit "judge_agent") model_name temperature.

Definition compare_drafts (self : BaseAgent.t)
    (user_query initial_draft final_draft : str) : Task AgentResponse.t :=
  let messages := [
    SystemMessage (lit "You are an impartial judge evaluating two drafts of a response. Compare the initial draft with the final draft and discuss how the final draft improved or changed. Highlight differences in clarity, accuracy and completeness. Conclude with one sentence starting with 'Summary:' summarizing your judgement.");
    HumanMessage (lit "User Query: " ++ user_query ++ lit "

Initial Draft:
" ++ initial_draft ++ lit "

Final Draft:
" ++ final_draft ++ lit "

Provide your comparison and commentary.")
  ] in
  and_then (generate_response self messages) (fun response =>
    Ok (AgentResponse.set_metadata (lit "judgement") (MBool true) response)).
End JudgeAgent.

(** ** The outside world *)

(** What the engine has sent to the model provider: a single awaited call, or
    one concurrent fan-out of calls. *)
Inductive Call : Type :=
| Single (r : Request)
| FanOut (rs : list Request).

(** The second argument of [ui_callback(event_type, data)]. *)
Inductive Payload : Type :=
| PStr (message : str)
| PResponse (response : AgentResponse.t)
| PRound (round : Z) (feedback : list FeedbackEntry).

Record Event : Type := {
  event_type : str;
  data : Payload
}.

(** The event callback: it is handed the event (the earlier events are what it
    may remember), and returns or raises. It reads its payload and does not
    write to it, as [handle_workflow_event] does. *)
Definition Callback : Type := list Event -> Event -> result unit.

Record World : Type := {
  calls : list Call;       (* issued so far, oldest first *)
  notified : list Event    (* emitted so far, oldest first *)
}.

(** The provider answers a request, given the calls issued before it; the
    scheduler says in which order the calls of a fan-out complete (indices of
    the tasks; a task not listed completes after the listed ones, in task
    order; an index that names no pending task is skipped). *)
Record Env : Type := {
  provider : list Call -> Request -> result AIMessage.t;
  completion_order : list Call -> list nat
}.

Definition M (A : Type) : Type := World -> result A * World.

Definition ret {A} (a : A) : M A := fun w => (Ok a, w).

Definition bind {A B} (m : M A) (k : A -> M B) : M B :=
  fun w =>
    match m w with
    | (Ok a, w') => k a w'
    | (Raise e, w') => (Raise e, w')
    end.

Definition raise {A} (e : exn) : M A := fun w => (Raise e, w).

Declare Scope engine_scope.
Delimit Scope engine_scope with engine.
Notation "x <- m ;; k" := (bind m (fun x => k))
  (at level 100, m at next level, right associativity) : engine_scope.
Notation "m ;; k" := (bind m (fun _ => k))
  (at level 100, right associativity) : engine_scope.
Local Open Scope engine_scope.

(** The outcome of one task once the provider has answered (or failed). *)
Definition settle {A} (env : Env) (history : list Call) (t : Task A) : result A :=
  match provider env history (request t) with
  | Ok reply => resume t reply
  | Raise e => Raise e
  end.

(** [await task] *)
Definition await {A} (env : Env) (t : Task A) : M A :=
  fun w =>
    (settle env (calls w) t,
     {| calls := calls w ++ [Single (request t)]; notified := notified w |}).

(** Completion of the tasks of a fan-out, in the given order. Each task owns a
    slot for its result; the first task to complete with an exception makes
    the whole gather raise it. *)
Fixpoint complete {A} (order : list nat) (outcomes : list (result A))
    (slots : list (option A)) : result (list (option A)) :=
  match order with
  | [] => Ok slots
  | i :: order' =>
      match slots !! i, outcomes !! i with
      | Some None, Some (Ok a) => complete order' outcomes (<[i := Some a]> slots)
      | Some None, Some (Raise e) => Raise e
      | _, _ => complete order' outcomes slots
      end
  end.

(** How the fan-out joins: the tasks complete in [order] (then the remaining
    ones), and once every task has completed the results are read from the
    slots in task order. *)
Definition join_results {A} (order : list nat) (outcomes : list (result A))
    : result (list A) :=
  let n := length outcomes in
  match complete (order ++ seq 0 n) outcomes (replicate n None) with
  | Ok slots => Ok (omap id slots)
  | Raise e => Raise e
  end.

(** [await asyncio.gather] over the tasks: all requests are issued, in task
    order, before any of them completes. *)
Definition gather {A} (env : Env) (tasks : list (Task A)) : M (list A) :=
  fun w =>
    let outcomes := List.map (settle env (calls w)) tasks in
    (join_results (completion_order env (calls w)) outcomes,
     {| calls := calls w ++ [FanOut (List.map request tasks)];
        notified := notified w |}).

(** ** config_manager.py: what the engine reads of the configuration *)

Module AgentConfig.
Record t : Type := {
  model : str;
  temperature : float
}.
End AgentConfig.

Module CouncilConfig.
Record t : Type := {
  openai_api_key : str;
  draft_agent : AgentConfig.t;
  council_members : list AgentConfig.t;
  editor_agent : AgentConfig.t;
  debate_rounds : Z
}.
End CouncilConfig.

(** ** workflow.py *)

Module CouncilState.
Record t : Type := {
  user_query : str;
  current_draft : str;
  drafts : list str;
  feedback_history : list (list FeedbackEntry);
  current_round : Z;
  max_rounds : Z;
  final_response : str;
  ui_callback : option Callback
}.
End CouncilState.

(** The dictionary a node returns: the keys it writes. *)
Module Update.
Record t : Type := {
  current_draft : option str;
  drafts : option (list str);
  feedback_history : option (list (list FeedbackEntry));
  current_round : option Z;
  final_response : option str
}.

(** The graph runtime merges a node's writes into the state: the two keys
    annotated with [operator.add] are concatenated, the others replaced. *)
Definition apply (state : CouncilState.t) (u : t) : CouncilState.t :=
  {| CouncilState.user_query := CouncilState.user_query state;
     CouncilState.current_draft :=
       default (CouncilState.current_draft state) (current_draft u);
     CouncilState.drafts :=
       CouncilState.drafts state ++ default [] (drafts u);
     CouncilState.feedback_history :=
       CouncilState.feedback_history state ++ default [] (feedback_history u);
     CouncilState.current_round :=
       default (CouncilState.current_round state) (current_round u);
     CouncilState.max_rounds := CouncilState.max_rounds state;
     CouncilState.final_response :=
       default (CouncilState.final_response state) (final_response u);
     CouncilState.ui_callback := CouncilState.ui_callback state |}.
End Update.

(** [if self.ui_callback: await self.ui_callback(event_type, data)] *)
Definition notify (ui_callback : option Callback) (event_type : str)
    (data : Payload) : M unit :=
  match ui_callback with
  | None => ret tt
  | Some callback => fun w =>
      let event := {| event_type := event_type; data := data |} in
      (callback (notified w) event,
       {| calls := calls w; notified := notified w ++ [event] |})
  end.

Module Node.
Inductive t : Type := create_draft | council_debate | update_draft | final_edit.
End Node.

(** The value of [should_continue_debate]. *)
Inductive Branch : Type := continue_ | end_.

(** The compiled graph: the entry node (the edge out of [START]), the
    function of every node, and the node that follows ([None] is [END]). *)
Record StateGraph : Type := {
  entry : Node.t;
  node : Node.t -> CouncilState.t -> M Update.t;
  next : Node.t -> CouncilState.t -> option Node.t
}.

Module CouncilWorkflow.
Record t : Type := {
  config : CouncilConfig.t;
  ui_callback : option Callback;
  draft_agent : BaseAgent.t;
  council_members : list CouncilMember.t;
  editor_agent : BaseAgent.t
}.

Definition __init__ (config : CouncilConfig.t) (ui_callback : option Callback) : t :=
  {| config := config;
     ui_callback := ui_callback;
     draft_agent :=
       DraftAgent.__init__
         (AgentConfig.model (CouncilConfig.draft_agent config))
         (AgentConfig.temperature (CouncilConfig.draft_agent config));
     council_members :=
       imap (fun i agent_config =>
               CouncilMember.__init__ (Z.of_nat i)
                 (AgentConfig.model agent_config)
                 (AgentConfig.temperature agent_config)
                 (Some (lit "Council Member " ++ str_of_int (Z.of_nat i + 1))))
            (CouncilConfig.council_members config);
     editor_agent :=
       EditorAgent.__init__
         (AgentConfig.model (CouncilConfig.editor_agent config))
         (AgentConfig.temperature (CouncilConfig.editor_agent config)) |}.

Section Nodes.
Variable env : Env.

Definition create_initial_draft (self : t) (state : CouncilState.t) : M Update.t :=
  notify (ui_callback self) (lit "status") (PStr (lit "Creating initial draft...")) ;;
  response <- await env (DraftAgent.create_initial_draft (draft_agent self)
                           (CouncilState.user_query state)) ;;
  notify (ui_callback self) (lit "draft_created") (PResponse response) ;;
  ret {| Update.current_draft := Some (AgentResponse.content response);
         Update.drafts := Some [AgentResponse.content response];
         Update.feedback_history := None;
         Update.current_round := Some 0;
         Update.final_response := None |}.

Definition council_debate (self : t) (state : CouncilState.t) : M Update.t :=
  let current_round := CouncilState.current_round state + 1 in
  notify (ui_callback self) (lit "status")
    (PStr (lit "Council debate round " ++ str_of_int current_round ++ lit "...")) ;;
  let feedback_tasks :=
    List.map (fun member =>
                CouncilMember.provide_feedback member
                  (CouncilState.user_query state)
                  (CouncilState.current_draft state)
                  current_round)
             (council_members self) in
  feedback_responses <- gather env feedback_tasks ;;
  let round_feedback :=
    List.map (fun response =>
                {| fb_agent_id := AgentResponse.agent_id response;
                   fb_feedback := AgentResponse.content response |})
             feedback_responses in
  notify (ui_callback self) (lit "feedback_round")
    (PRound current_round round_feedback) ;;
  ret {| Update.current_draft := None;
         Update.drafts := None;
         Update.feedback_history := Some [round_feedback];
         Update.current_round := Some current_round;
         Update.final_response := None |}.

Definition update_draft (self : t) (state : CouncilState.t) : M Update.t :=
  notify (ui_callback self) (lit "status")
    (PStr (lit "Updating draft based on feedback...")) ;;
  latest_feedback <-
    match last (CouncilState.feedback_history state) with
    | Some latest => ret latest
    | None => raise IndexError
    end ;;
  let feedback_texts := List.map fb_feedback latest_feedback in
  response <- await env (DraftAgent.update_draft (draft_agent self)
                           (CouncilState.current_draft state) feedback_texts) ;;
  notify (ui_callback self) (lit "draft_updated") (PResponse response) ;;
  ret {| Update.current_draft := Some (AgentResponse.content response);
         Update.drafts := Some [AgentResponse.content response];
         Update.feedback_history := None;
         Update.current_round := None;
         Update.final_response := None |}.

Definition final_edit (self : t) (state : CouncilState.t) : M Update.t :=
  notify (ui_callback self) (lit "status") (PStr (lit "Performing final edit...")) ;;
  response <- await env (EditorAgent.edit_final_response (editor_agent self)
                           (CouncilState.user_query state)
                           (CouncilState.current_draft state)
                           (CouncilState.feedback_history state)) ;;
  notify (ui_callback self) (lit "final_response") (PResponse response) ;;
  ret {| Update.current_draft := None;
         Update.drafts := None;
         Update.feedback_history := None;
         Update.current_round := None;
         Update.final_response := Some (AgentResponse.content response) |}.

Definition should_continue_debate (self : t) (state : CouncilState.t) : Branch :=
  if CouncilState.current_round state >=? CouncilState.max_rounds state
  then end_
  else continue_.

Definition _build_workflow (self : t) : StateGraph :=
  {| entry := Node.create_draft;
     node := fun n =>
       match n with
       | Node.create_draft => create_initial_draft self
       | Node.council_debate => council_debate self
       | Node.update_draft => update_draft self
       | Node.final_edit => final_edit self
       end;
     next := fun n state =>
       match n with
       | Node.create_draft => Some Node.council_debate
       | Node.council_debate =>
           match should_continue_debate self state with
           | continue_ => Some Node.update_draft
           | end_ => Some Node.final_edit
           end
       | Node.update_draft => Some Node.council_debate
       | Node.final_edit => None
       end |}.
End Nodes.
End CouncilWorkflow.

(** ** The graph runtime *)

(** One run of the compiled graph: how it ended, where it stood at the start
    of every superstep it began, and the world it leaves. *)
Record Run : Type := {
  outcome : result CouncilState.t;
  visited : list (Node.t * CouncilState.t * World);
  end_world : World
}.

(** At most [limit] supersteps are executed; a run that would need more
    raises [GraphRecursionError]. A node that raises ends the run with its
    exception; its writes are not merged. The branch after a node reads the
    state with that node's writes merged. *)
Fixpoint pregel (g : StateGraph) (limit : nat) (n : Node.t)
    (state : CouncilState.t) (w : World) : Run :=
  match limit with
  | O => {| outcome := Raise GraphRecursionError; visited := []; end_world := w |}
  | S limit' =>
      match node g n state w with
      | (Raise e, w') =>
          {| outcome := Raise e; visited := [(n, state, w)]; end_world := w' |}
      | (Ok u, w') =>
          let state' := Update.apply state u in
          match next g n state' with
          | None =>
              {| outcome := Ok state'; visited := [(n, state, w)]; end_world := w' |}
          | Some n' =>
              let r := pregel g limit' n' state' w' in
              {| outcome := outcome r;
                 visited := (n, state, w) :: visited r;
                 end_world := end_world r |}
          end
      end
  end.

(** [graph.ainvoke(initial_state)] *)
Definition ainvoke (g : StateGraph) (limit : nat) (initial_state : CouncilState.t)
    (w : World) : Run :=
  pregel g limit (entry g) initial_state w.

Definition initial_state (self : CouncilWorkflow.t) (user_query : str) : CouncilState.t :=
  {| CouncilState.user_query := user_query;
     CouncilState.current_draft := [];
     CouncilState.drafts := [];
     CouncilState.feedback_history := [];
     CouncilState.current_round := 0;
     CouncilState.max_rounds :=
       CouncilConfig.debate_rounds (CouncilWorkflow.config self);
     CouncilState.final_response := [];
     CouncilState.ui_callback := CouncilWorkflow.ui_callback self |}.

(** The graph run that [CouncilWorkflow.run] starts. *)
Definition execution (env : Env) (self : CouncilWorkflow.t) (limit : nat)
    (user_query : str) (w : World) : Run :=
  ainvoke (CouncilWorkflow._build_workflow env self) limit
    (initial_state self user_query) w.

(** [CouncilWorkflow.run]. The bound on supersteps is a setting of the graph
    runtime, not of this repository: [limit] stands for it. *)
Definition run (env : Env) (self : CouncilWorkflow.t) (limit : nat)
    (user_query : str) : M str :=
  fun w =>
    let r := execution env self limit user_query w in
    (match outcome r with
     | Ok final_state => Ok (CouncilState.final_response final_state)
     | Raise e => Raise e
     end,
     end_world r).

(** The world before anything happened. *)
Definition fresh : World := {| calls := []; notified := [] |}.

(** ** Vocabulary of the properties *)

(** [s] neither starts nor ends with a whitespace character. *)
Definition no_outer_space (s : str) : Prop :=
  (forall c, head s = Some c -> isspace c = false) /\
  (forall c, last s = Some c -> isspace c = false).

(** The event [ui_callback(event_type, data)] delivers. *)
Definition ev (event_type : str) (data : Payload) : Event :=
  {| event_type := event_type; data := data |}.

(** What a callback receives of the events: nothing when there is none. *)
Definition emitted {A} (ui_callback : option Callback) (events : list A)
    : list A :=
  match ui_callback with
  | Some _ => events
  | None => []
  end.

(** The callback, if there is one, always returns. *)
Definition attentive (ui_callback : option Callback) : Prop :=
  forall callback, ui_callback = Some callback ->
  forall history event, callback history event = Ok tt.

(** The provider answers every request. *)
Definition responsive (env : Env) : Prop :=
  forall history r, is_ok (provider env history r).

Definition is_fan_out (c : Call) : bool :=
  match c with
  | FanOut _ => true
  | Single _ => false
  end.

(** The number of concurrent fan-outs among the calls. *)
Definition fan_outs (cs : list Call) : nat := length (filter is_fan_out cs).

(** The nodes a run executed, in order. *)
Definition stages (r : Run) : list Node.t :=
  List.map (fun v => fst (fst v)) (visited r).


(** The results in the slots agree with the outcomes of the tasks. *)
Definition fits {A} (outcomes : list (result A)) (slots : list (option A)) : Prop :=
  length slots = length outcomes /\
  forall i a, slots !! i = Some (Some a) -> outcomes !! i = Some (Ok a).


Import CouncilWorkflow.

(** The updates the nodes write. *)
Definition draft_written (c : str) (round : option Z) : Update.t :=
  {| Update.current_draft := Some c;
     Update.drafts := Some [c];
     Update.feedback_history := None;
     Update.current_round := round;
     Update.final_response := None |}.

Definition round_written (round : Z) (fb : list FeedbackEntry) : Update.t :=
  {| Update.current_draft := None;
     Update.drafts := None;
     Update.feedback_history := Some [fb];
     Update.current_round := Some round;
     Update.final_response := None |}.

Definition final_written (c : str) : Update.t :=
  {| Update.current_draft := None;
     Update.drafts := None;
     Update.feedback_history := None;
     Update.current_round := None;
     Update.final_response := Some c |}.

Definition entry_of (response : AgentResponse.t) : FeedbackEntry :=
  {| fb_agent_id := AgentResponse.agent_id response;
     fb_feedback := AgentResponse.content response |}.

Definition after (w : World) (cs : list Call) (ui : option Callback)
    (events : list Event) : World :=
  {| calls := calls w ++ cs; notified := notified w ++ emitted ui events |}.

Definition draft_task (self : t) (state : CouncilState.t) :=
  DraftAgent.create_initial_draft (draft_agent self) (CouncilState.user_query state).

Definition feedback_tasks (self : t) (state : CouncilState.t) :=
  List.map (fun member =>
              CouncilMember.provide_feedback member
                (CouncilState.user_query state)
                (CouncilState.current_draft state)
                (CouncilState.current_round state + 1))
           (council_members self).

Definition revise_task (self : t) (state : CouncilState.t) (latest : list FeedbackEntry) :=
  DraftAgent.update_draft (draft_agent self) (CouncilState.current_draft state)
    (List.map fb_feedback latest).

Definition edit_task (self : t) (state : CouncilState.t) :=
  EditorAgent.edit_final_response (editor_agent self)
    (CouncilState.user_query state) (CouncilState.current_draft state)
    (CouncilState.feedback_history state).

Definition debate_status (state : CouncilState.t) : Event :=
  ev (lit "status")
     (PStr (lit "Council debate round "
            ++ str_of_int (CouncilState.current_round state + 1) ++ lit "...")).

Definition debate_outcome (env : Env) (self : t) (state : CouncilState.t)
    (w : World) : result (list AgentResponse.t) :=
  join_results (completion_order env (calls w))
    (List.map (settle env (calls w)) (feedback_tasks self state)).

Definition debate_events (state : CouncilState.t)
    (responses : list AgentResponse.t) : list Event :=
  [debate_status state;
   ev (lit "feedback_round")
      (PRound (CouncilState.current_round state + 1) (List.map entry_of responses))].

Definition revision_events (response : AgentResponse.t) : list Event :=
  [ev (lit "status") (PStr (lit "Updating draft based on feedback..."));
   ev (lit "draft_updated") (PResponse response)].

Definition final_events (response : AgentResponse.t) : list Event :=
  [ev (lit "status") (PStr (lit "Performing final edit..."));
   ev (lit "final_response") (PResponse response)].

Definition draft_events (response : AgentResponse.t) : list Event :=
  [ev (lit "status") (PStr (lit "Creating initial draft..."));
   ev (lit "draft_created") (PResponse response)].

(** What a notification shows of itself: its type and, for a feedback round,
    the round number and the number of entries. *)
Definition label (e : Event) : str * option (Z * nat) :=
  (event_type e,
   match data e with
   | PRound round feedback => Some (round, length feedback)
   | _ => None
   end).

(** The stages from a debate on, when [k] more debates follow it. *)
Fixpoint stages_from_debate (k : nat) : list Node.t :=
  match k with
  | O => [Node.council_debate; Node.final_edit]
  | S k' => Node.council_debate :: Node.update_draft :: stages_from_debate k'
  end.

(** The notifications from the debate of round [round] on. *)
Fixpoint labels_from_debate (members : nat) (round : Z) (k : nat)
    : list (str * option (Z * nat)) :=
  (lit "status", None) :: (lit "feedback_round", Some (round, members)) ::
  (lit "status", None) ::
  match k with
  | O => [(lit "final_response", None)]
  | S k' => (lit "draft_updated", None) :: labels_from_debate members (round + 1) k'
  end.

(** The debates still to come after the one that starts in [state]. *)
Definition rounds_left (state : CouncilState.t) : nat :=
  Z.to_nat (CouncilState.max_rounds state - CouncilState.current_round state - 1).

(** A run that began one superstep earlier, in configuration [c]. *)
Definition preceded_by (c : Node.t * CouncilState.t * World) (r : Run) : Run :=
  {| outcome := outcome r; visited := c :: visited r; end_world := end_world r |}.

(** How many drafts there are for how many feedback rounds, by the node that
    is about to run. *)
Definition drafts_vs_feedback (v : Node.t * CouncilState.t * World) : Prop :=
  let state := snd (fst v) in
  let drafts := length (CouncilState.drafts state) in
  let rounds := length (CouncilState.feedback_history state) in
  match fst (fst v) with
  | Node.create_draft => drafts = 0%nat /\ rounds = 0%nat
  | Node.council_debate => drafts = (1 + rounds)%nat
  | Node.update_draft | Node.final_edit => drafts = rounds /\ (1 <= rounds)%nat
  end.

(** The updates still to come when the run starts. *)
Definition updates_planned (self : t) : nat :=
  Z.to_nat (CouncilConfig.debate_rounds (config self) - 1).

(** Two workflows built alike: they differ at most in their callback. *)
Definition same_engine (self0 self1 : t) : Prop :=
  config self0 = config self1 /\
  draft_agent self0 = draft_agent self1 /\
  council_members self0 = council_members self1 /\
  editor_agent self0 = editor_agent self1.



(** The feedback rounds recorded in a configuration. *)
Definition rounds_recorded (v : Node.t * CouncilState.t * World) : nat :=
  length (CouncilState.feedback_history (snd (fst v))).


(** The task a reviewer is given in the debate that starts in [state]. *)
Definition feedback_task (member : CouncilMember.t) (state : CouncilState.t)
    : Task AgentResponse.t :=
  CouncilMember.provide_feedback member
    (CouncilState.user_query state) (CouncilState.current_draft state)
    (CouncilState.current_round state + 1).

Arguments fan_outs : simpl never.

(** ** A sample council *)

Definition sample_agent : AgentConfig.t :=
  {| AgentConfig.model := lit "gpt-4o-mini"; AgentConfig.temperature := 0.5%float |}.

(** Two reviewers, [rounds] debate rounds. *)
Definition sample_config (rounds : Z) : CouncilConfig.t :=
  {| CouncilConfig.openai_api_key := lit "test-key-12345";
     CouncilConfig.draft_agent := sample_agent;
     CouncilConfig.council_members := [sample_agent; sample_agent];
     CouncilConfig.editor_agent := sample_agent;
     CouncilConfig.debate_rounds := rounds |}.

Definition sample_reply : AIMessage.t :=
  {| AIMessage.content := lit "Looks fine. Summary: fine";
     AIMessage.usage_metadata := None |}.

(** Every call is answered; in a fan-out the second reviewer completes before
    the first. *)
Definition sample_env : Env :=
  {| provider := fun _ _ => Ok sample_reply;
     completion_order := fun _ => [1; 0]%nat |}.

(** The same, but the second reviewer's call fails. *)
Definition flaky_env : Env :=
  {| provider := fun _ r =>
       if decide (BaseAgent.agent_id (req_agent r) = lit "council_member_1")
       then Raise (ProviderError 429)
       else Ok sample_reply;
     completion_order := fun _ => [1; 0]%nat |}.

Definition quiet_callback : Callback := fun _ _ => Ok tt.

Definition failing_callback : Callback := fun _ _ => Raise (CallbackError 1).

Definition sample_query : str := lit "Explain X".

(** ** Vocabulary of the further properties *)

(** The [token_usage] entry built from a usage dictionary. *)
Definition token_usage_of (usage : gmap str Z) : gmap str Z :=
  <[lit "input_tokens" := get0 usage (lit "input_tokens")]>
    (<[lit "output_tokens" := get0 usage (lit "output_tokens")]>
    (<[lit "total_tokens" := get0 usage (lit "total_tokens")]> ∅)).

(** What every state of a run keeps of the query [user_query] asked of [self]:
    the query, the round limit and the stored callback are those of the start;
    the round counter counts the feedback rounds recorded; no final response
    is set; and once the initial draft exists the current draft is the last of
    the drafts. *)
Definition state_kept (self : t) (user_query : str)
    (v : Node.t * CouncilState.t * World) : Prop :=
  let state := snd (fst v) in
  CouncilState.user_query state = user_query /\
  CouncilState.max_rounds state = CouncilConfig.debate_rounds (config self) /\
  CouncilState.ui_callback state = ui_callback self /\
  CouncilState.final_response state = [] /\
  CouncilState.current_round state
    = Z.of_nat (length (CouncilState.feedback_history state)) /\
  match fst (fst v) with
  | Node.create_draft =>
      CouncilState.drafts state = [] /\ CouncilState.feedback_history state = []
  | _ => last (CouncilState.drafts state) = Some (CouncilState.current_draft state)
  end.
(** The requests a call issues, and those of a list of calls, in order. *)
Definition requests (c : Call) : list Request :=
  match c with
  | Single r => [r]
  | FanOut rs => rs
  end.

Definition requested (cs : list Call) : list Request := flat_map requests cs.

(** The model call the node of a configuration issues. *)
Definition call_of (self : t) (v : Node.t * CouncilState.t * World) : Call :=
  let state := snd (fst v) in
  match fst (fst v) with
  | Node.create_draft => Single (request (draft_task self state))
  | Node.council_debate => FanOut (List.map request (feedback_tasks self state))
  | Node.update_draft =>
      Single (request (revise_task self state
                         (default [] (last (CouncilState.feedback_history state)))))
  | Node.final_edit => Single (request (edit_task self state))
  end.

(** The agents a workflow holds. *)
Definition agents_of (self : t) : list BaseAgent.t :=
  draft_agent self :: editor_agent self
  :: List.map CouncilMember.base (council_members self).

(** The stages a node still needs, itself included, when nothing fails. *)
Definition stages_due (n : Node.t) (state : CouncilState.t) : nat :=
  match n with
  | Node.create_draft =>
      (2 * Z.to_nat (CouncilState.max_rounds state - 1) + 3)%nat
  | Node.council_debate => (2 * rounds_left state + 2)%nat
  | Node.update_draft =>
      (2 * Z.to_nat (CouncilState.max_rounds state
                     - CouncilState.current_round state) + 1)%nat
  | Node.final_edit => 1%nat
  end.

(** The status a node announces before anything else. *)
Definition status_of (n : Node.t) (state : CouncilState.t) : Event :=
  match n with
  | Node.create_draft => ev (lit "status") (PStr (lit "Creating initial draft..."))
  | Node.council_debate => debate_status state
  | Node.update_draft =>
      ev (lit "status") (PStr (lit "Updating draft based on feedback..."))
  | Node.final_edit => ev (lit "status") (PStr (lit "Performing final edit..."))
  end.
(** How many requests the call of a node holds, for a council of [members]. *)
Definition requests_by (members : nat) (n : Node.t) : nat :=
  match n with
  | Node.council_debate => members
  | _ => 1%nat
  end.

(** ** simple_cli.py: the event handler of the command line *)

(** What the handler does to the terminal: a line printed on the console, or
    a new description of the running progress task. *)
Inductive Output : Type :=
| console_print (line : str)
| progress_update (description : str).

(** What the handler raises on data of the wrong shape. *)
Inductive HandlerError : Type :=
| AttributeError
| TypeError.

Inductive Handled : Type :=
| Done (output : list Output)
| Failed (e : HandlerError).

(** Python's truth value of a metadata value. *)
Definition truthy (v : MetaValue) : bool :=
  match v with
  | MStr s => negb (bool_decide (s = []))
  | MBool b => b
  | MInt i => negb (i =? 0)
  | MDict d => negb (bool_decide (d = ∅))
  end.

(** [fb.get(key, '')] on the dictionary the debate stores for one reviewer:
    it has the keys [agent_id] and [feedback]. *)
Definition fb_get (fb : FeedbackEntry) (key : str) : str :=
  if decide (key = lit "agent_id") then fb_agent_id fb
  else if decide (key = lit "feedback") then fb_feedback fb
  else [].

Module SimpleCouncilCLI.
Section Handler.
(** How an f-string shows a metadata value that is not a string, and what
    [str(data)] is for data that is not a string. *)
Variable render : MetaValue -> str.
Variable describe : Payload -> str.

Definition formatted (v : MetaValue) : str :=
  match v with
  | MStr s => s
  | _ => render v
  end.

(** [data.metadata.get("summary", "")] *)
Definition summary_of (response : AgentResponse.t) : MetaValue :=
  default (MStr []) (AgentResponse.metadata response !! lit "summary").

(** [handle_workflow_event]; [progress_live] says that a progress display
    and its task are set. *)
Definition handle_workflow_event (progress_live : bool) (event_type : str)
    (data : Payload) : Handled :=
  if decide (event_type = lit "status") then
    if progress_live
    then Done [progress_update (match data with
                                | PStr message => message
                                | _ => describe data
                                end)]
    else Done []
  else if decide (event_type = lit "draft_created") then
    match data with
    | PResponse response =>
        let summary := summary_of response in
        if truthy summary
        then Done [console_print ([9989%N] ++ lit " [green]Draft Created:[/green] "
                                  ++ formatted summary)]
        else Done [console_print ([9989%N] ++ lit " [green]Initial draft created[/green]")]
    | _ => Failed AttributeError
    end
  else if decide (event_type = lit "feedback_round") then
    match data with
    | PRound round feedback =>
        Done (console_print ([128172%N] ++ lit " [blue]Debate round "
                             ++ str_of_int round ++ lit " summaries:[/blue]")
              :: flat_map (fun fb =>
                             let summary := fb_get fb (lit "summary") in
                             if negb (bool_decide (summary = []))
                             then [console_print (lit "  " ++ [8226%N] ++ lit " "
                                                  ++ fb_agent_id fb ++ lit ": "
                                                  ++ summary)]
                             else [])
                          feedback)
    | _ => Failed TypeError
    end
  else if decide (event_type = lit "draft_updated") then
    match data with
    | PResponse response =>
        let summary := summary_of response in
        if truthy summary
        then Done [console_print ([9999%N; 65039%N] ++ lit " [yellow]Draft Updated:[/yellow] "
                                  ++ formatted summary)]
        else Done [console_print ([9999%N; 65039%N]
                                  ++ lit " [yellow]Draft updated based on feedback[/yellow]")]
    | _ => Failed AttributeError
    end
  else if decide (event_type = lit "final_response") then
    match data with
    | PResponse response =>
        let summary := summary_of response in
        if truthy summary
        then Done [console_print ([127919%N] ++ lit " [green]Final Summary:[/green] "
                                  ++ formatted summary)]
        else Done [console_print ([127919%N] ++ lit " [green]Final response ready[/green]")]
    | _ => Failed AttributeError
    end
  else Done [].
End Handler.
End SimpleCouncilCLI.

(** ** secure_config.py *)

Module CouncilConfigSecure.
Record t : Type := {
  draft_agent : AgentConfig.t;
  council_members : list AgentConfig.t;
  editor_agent : AgentConfig.t;
  judge_agent : AgentConfig.t;
  debate_rounds : Z
}.
End CouncilConfigSecure.

(** What the manager reads of its surroundings: the text of the files, by
    path, and the environment variables (those of [.env] included). *)
Record Outside : Type := {
  files : gmap str str;
  environ : gmap str str
}.

Module SecureConfigManager.
Record t : Type := {
  config_path : str;
  config : option CouncilConfigSecure.t
}.

Section Parsing.
(** What [json.load] and the [CouncilConfigSecure] constructor make of the
    text of a file: [None] when reading or validating raises. *)
Variable parse : str -> option CouncilConfigSecure.t.

Definition get_api_key (self : t) (o : Outside) : option str :=
  environ o !! lit "OPENAI_API_KEY".

(** [load_config]: the configuration read, and the manager afterwards. *)
Definition load_config (self : t) (o : Outside)
    : option CouncilConfigSecure.t * t :=
  match files o !! config_path self with
  | Some text =>
      match parse text with
      | Some c => (Some c, {| config_path := config_path self; config := Some c |})
      | None => (None, self)
      end
  | None => (None, self)
  end.

Definition config_exists (self : t) (o : Outside) : bool :=
  bool_decide (is_Some (files o !! config_path self)).

Definition has_valid_setup (self : t) (o : Outside) : bool :=
  config_exists self o && bool_decide (is_Some (get_api_key self o)).

(** [get_full_config]: the configuration with the key added, or [None]. *)
Definition get_full_config (self : t) (o : Outside)
    : option (CouncilConfigSecure.t * str) * t :=
  let (config, self') := load_config self o in
  let api_key := get_api_key self' o in
  match config, api_key with
  | Some c, Some (k :: key) => (Some (c, k :: key), self')
  | _, _ => (None, self')
  end.
End Parsing.
End SecureConfigManager.

(** * Properties *)

(** ** Strings *)

Lemma startswith_app (p s : str) :
  startswith p s = true <-> exists r, s = p ++ r.
Proof.
  revert s. induction p as [|a p IH]; intros s; simpl.
  - split; [intros _; by exists s | done].
  - destruct s as [|b s]; simpl.
    + split; [done | intros [r Hr]; discriminate].
    + rewrite andb_true_iff, N.eqb_eq, IH. split.
      * intros [-> [r ->]]. by exists r.
      * intros [r Hr]. injection Hr as -> ->. split; [done | by exists r].
Qed.

Lemma drop_prefix (p r : str) : drop (length p) (p ++ r) = r.
Proof. by rewrite drop_app_length. Qed.

Lemma contains_rpartition (sep s : str) :
  contains sep s = true <-> is_Some (rpartition sep s).
Proof.
  induction s as [|c s IH].
  - simpl. rewrite orb_false_r. destruct (startswith sep []); split; 
      first [done | by eexists | by intros [? ?]].
  - cbn [contains rpartition]. rewrite orb_true_iff, IH.
    destruct (rpartition sep s) as [[b a]|].
    + split; [by eexists | intros _; right; by eexists].
    + destruct (startswith sep (c :: s)).
      * split; [by eexists | by left].
      * split; [intros [? | [? ?]]; done | by intros [? ?]].
Qed.


Lemma rpartition_split (sep s before after : str) :
  rpartition sep s = Some (before, after) ->
  s = before ++ sep ++ after /\
  (sep <> [] -> contains sep (tail (sep ++ after)) = false).
Proof.
  revert before after. induction s as [|c s IH]; intros before after.
  - simpl. destruct sep as [|a sep]; simpl; [|done].
    intros [= <- <-]. done.
  - cbn [rpartition]. destruct (rpartition sep s) as [[b a]|] eqn:E.
    + intros [= <- <-]. destruct (IH b a eq_refl) as [-> H]. done.
    + destruct (startswith sep (c :: s)) eqn:S; [|done].
      intros [= <- <-]. apply startswith_app in S as [r Hr].
      rewrite Hr, drop_prefix. split; [done|].
      intros Hne. destruct sep as [|a sep]; [done|].
      simpl in Hr. injection Hr as <- ->. simpl.
      match goal with |- ?x = false => destruct x eqn:C; [|done] end.
      apply contains_rpartition in C as [? C]. congruence.
Qed.

Lemma lstrip_head (s : str) c : head (lstrip s) = Some c -> isspace c = false.
Proof.
  induction s as [|a s IH]; simpl; [done|].
  destruct (isspace a) eqn:E; [done|]. simpl. by intros [= <-].
Qed.

Lemma lstrip_suffix (s : str) : exists sp, s = sp ++ lstrip s /\ forallb isspace sp = true.
Proof.
  induction s as [|a s [sp [IH1 IH2]]]; simpl.
  - by exists [].
  - destruct (isspace a) eqn:E.
    + exists (a :: sp). simpl. rewrite E, IH2. split; [by f_equal | done].
    + by exists [].
Qed.

Lemma lstrip_nil_iff (s : str) : lstrip s = [] <-> forallb isspace s = true.
Proof.
  induction s as [|a s IH]; simpl; [done|].
  destruct (isspace a); simpl; [done|]. split; done.
Qed.

Lemma lstrip_last (s : str) : lstrip s <> [] -> last (lstrip s) = last s.
Proof.
  induction s as [|a s IH]; simpl; [done|].
  destruct (isspace a); [|done]. intros H. rewrite IH by done.
  destruct s; [done|]. done.
Qed.

Lemma last_rev {A} (l : list A) : last (rev l) = head l.
Proof. destruct l; simpl; [done|]. by rewrite last_snoc. Qed.
Lemma head_rev {A} (l : list A) : head (rev l) = last l.
Proof. by rewrite <- last_rev, rev_involutive. Qed.

Lemma rstrip_last (s : str) c : last (rstrip s) = Some c -> isspace c = false.
Proof. unfold rstrip. rewrite last_rev. apply lstrip_head. Qed.

Lemma rstrip_head_inv (s : str) c :
  head (rstrip s) = Some c -> head s = Some c.
Proof.
  unfold rstrip. rewrite head_rev. intros H.
  destruct (decide (lstrip (rev s) = [])) as [E|E]; [by rewrite E in H|].
  rewrite lstrip_last in H by done. by rewrite last_rev in H.
Qed.

Lemma strip_no_outer_space (s : str) : no_outer_space (strip s).
Proof.
  unfold strip. split; intros c H.
  - apply rstrip_head_inv in H. by apply lstrip_head in H.
  - by apply rstrip_last in H.
Qed.

Lemma forallb_rev' {A} (f : A -> bool) (l : list A) : forallb f (rev l) = forallb f l.
Proof.
  induction l as [|a l IH]; simpl; [done|].
  rewrite forallb_app, IH. simpl. rewrite andb_true_r. apply andb_comm.
Qed.

Lemma strip_nil_iff (s : str) : strip s = [] <-> forallb isspace s = true.
Proof.
  unfold strip, rstrip. split.
  - intros H. apply (f_equal (@rev N)) in H. rewrite rev_involutive in H. simpl in H.
    apply lstrip_nil_iff in H. rewrite forallb_rev' in H.
    destruct (lstrip_suffix s) as [sp [Hs Hsp]]. rewrite Hs, forallb_app, Hsp, H. done.
  - intros H. apply lstrip_nil_iff in H. rewrite H. done.
Qed.

Lemma strip_nonempty_iff (s : str) :
  strip s <> [] <-> exists c, In c s /\ isspace c = false.
Proof.
  rewrite strip_nil_iff. split.
  - intros H. destruct (forallb isspace s) eqn:E; [done|].
    clear H. induction s as [|a s IH]; [done|]. simpl in E.
    destruct (isspace a) eqn:Ea.
    + destruct (IH E) as [c [? ?]]. exists c. split; [by right | done].
    + exists a. split; [by left | done].
  - intros [c [Hin Hc]] H. rewrite forallb_forall in H.
    rewrite (H c Hin) in Hc. done.
Qed.

(** ** The fan-out *)

Section Gather.
Context {A : Type}.
Local Open Scope nat_scope.
Implicit Types (outcomes : list (result A)) (slots : list (option A)).
Implicit Types (order : list nat).

Lemma fits_insert outcomes slots i a :
  fits outcomes slots -> outcomes !! i = Some (Ok a) ->
  fits outcomes (<[i := Some a]> slots).
Proof.
  intros [Hlen Hfit] Hi. split; [by rewrite length_insert|].
  intros j b Hj. destruct (decide (i = j)) as [->|Hne].
  - rewrite list_lookup_insert_eq in Hj; [congruence|].
    rewrite Hlen. by eapply lookup_lt_Some.
  - rewrite list_lookup_insert_ne in Hj by done. by apply Hfit.
Qed.

Lemma complete_Ok order outcomes slots slots' :
  fits outcomes slots ->
  complete order outcomes slots = Ok slots' ->
  fits outcomes slots' /\
  (forall i a, slots !! i = Some (Some a) -> slots' !! i = Some (Some a)) /\
  (forall i, In i order -> i < length outcomes ->
             exists a, slots' !! i = Some (Some a)).
Proof.
  revert slots. induction order as [|i order IH]; intros slots Hfit; simpl.
  - intros [= <-]. repeat split; [apply Hfit | apply Hfit | done | done].
  - destruct (slots !! i) as [[a|]|] eqn:Es.
    + intros H. destruct (IH _ Hfit H) as (F & Keep & Fill).
      repeat split; [apply F | apply F | done |].
      intros j [<-|Hj] Hlt; [eauto | by apply Fill].
    + destruct (outcomes !! i) as [[a|e]|] eqn:Eo; [| done |].
      * intros H.
        destruct (IH _ (fits_insert _ _ _ _ Hfit Eo) H) as (F & Keep & Fill).
        assert (Hi : i < length slots) by by eapply lookup_lt_Some.
        repeat split; [apply F | apply F | |].
        -- intros j b Hj. apply Keep.
           destruct (decide (i = j)) as [->|Hne]; [congruence|].
           by rewrite list_lookup_insert_ne.
        -- intros j [<-|Hj] Hlt; [|by apply Fill].
           exists a. apply Keep. by apply list_lookup_insert_eq.
      * apply lookup_ge_None in Eo. apply lookup_lt_Some in Es.
        destruct Hfit as [Hlen _]. lia.
    + intros H. destruct (IH _ Hfit H) as (F & Keep & Fill).
      repeat split; [apply F | apply F | done |].
      intros j [<-|Hj] Hlt; [|by apply Fill].
      apply lookup_ge_None in Es. destruct Hfit as [Hlen _]. lia.
Qed.

Lemma complete_Raise order outcomes slots e :
  complete order outcomes slots = Raise e ->
  exists i, In i order /\ outcomes !! i = Some (Raise e).
Proof.
  revert slots. induction order as [|i order IH]; intros slots; simpl; [done|].
  destruct (slots !! i) as [[a|]|].
  - intros H. destruct (IH _ H) as (j & ? & ?). eauto.
  - destruct (outcomes !! i) as [[a|e']|] eqn:Eo.
    + intros H. destruct (IH _ H) as (j & ? & ?). eauto.
    + intros [= ->]. eauto.
    + intros H. destruct (IH _ H) as (j & ? & ?). eauto.
  - intros H. destruct (IH _ H) as (j & ? & ?). eauto.
Qed.

Lemma fits_replicate outcomes : fits outcomes (replicate (length outcomes) None).
Proof.
  split; [by rewrite length_replicate|].
  intros i a H. apply lookup_replicate in H as [? _]. done.
Qed.

Lemma join_results_Ok_inv order outcomes values :
  join_results order outcomes = Ok values -> outcomes = List.map Ok values.
Proof.
  unfold join_results.
  destruct (complete _ _ _) as [slots|] eqn:E; [|done]. intros [= <-].
  destruct (complete_Ok _ _ _ _ (fits_replicate outcomes) E) as ([Hlen Hfit] & _ & Fill).
  assert (Hall : forall i, i < length outcomes -> exists a,
                 slots !! i = Some (Some a) /\ outcomes !! i = Some (Ok a)).
  { intros i Hi. destruct (Fill i) as [a Ha]; [|done|eauto].
    apply in_or_app. right. apply in_seq. lia. }
  clear E Fill Hfit. revert slots Hlen Hall.
  induction outcomes as [|o outcomes IH]; intros slots Hlen Hall.
  - destruct slots; [done | discriminate].
  - destruct slots as [|s slots]; [discriminate|].
    destruct (Hall 0%nat) as (a & Hs & Ho); [simpl; lia|].
    simpl in Hs, Ho. injection Hs as ->. injection Ho as ->. simpl.
    f_equal. apply IH; [simpl in Hlen; lia|].
    intros i Hi. apply (Hall (S i)). simpl. lia.
Qed.

Lemma join_results_Ok order (values : list A) :
  join_results order (List.map Ok values) = Ok values.
Proof.
  destruct (join_results order (List.map Ok values)) as [values'|e] eqn:E.
  - apply join_results_Ok_inv in E. f_equal.
    revert values' E. induction values as [|v values IH]; intros [|v' values']; simpl;
      try done. intros [= -> H]. f_equal. by apply IH.
  - unfold join_results in E. destruct (complete _ _ _) eqn:C; [done|].
    injection E as ->. apply complete_Raise in C as (i & _ & Hi).
    rewrite list_lookup_fmap in Hi. destruct (values !! i); done.
Qed.

Lemma join_results_Raise order outcomes e :
  join_results order outcomes = Raise e ->
  exists i, outcomes !! i = Some (Raise e).
Proof.
  unfold join_results. destruct (complete _ _ _) eqn:C; [done|].
  intros [= ->]. apply complete_Raise in C as (i & _ & Hi). eauto.
Qed.

Lemma join_results_failure order outcomes i e0 :
  outcomes !! i = Some (Raise e0) ->
  exists e, join_results order outcomes = Raise e.
Proof.
  intros Hi. destruct (join_results order outcomes) as [values|e] eqn:E; [|eauto].
  apply join_results_Ok_inv in E. subst. rewrite list_lookup_fmap in Hi.
  destruct (values !! i); done.
Qed.
End Gather.

(** ** The agent wrapper *)

Opaque lit str_of_int.

Lemma split_summary_total (text : str) :
  exists main summary, split_summary text = Ok (main, summary).
Proof.
  unfold split_summary, rsplit1. destruct (contains marker text) eqn:C; [|eauto].
  apply contains_rpartition in C as [[before after] ->]. eauto.
Qed.

Lemma resume_generate_response (self : BaseAgent.t) messages reply :
  exists constructed,
    resume (generate_response self messages) reply = Ok constructed /\
    AgentResponse.agent_id constructed = BaseAgent.agent_id self /\
    AgentResponse.agent_type constructed = BaseAgent.agent_type self /\
    (forall key, key <> lit "summary" -> key <> lit "token_usage" ->
                 AgentResponse.metadata constructed !! key = None).
Proof.
  simpl. destruct (split_summary_total (AIMessage.content reply)) as (main & summary & ->).
  eexists. split; [done|]. simpl. repeat split.
  intros key H1 H2.
  destruct summary, (usage_truthy _);
    rewrite ?lookup_insert_ne by done; apply lookup_empty.
Qed.


Lemma settle_and_then {A B} env history (t : Task A) (k : A -> result B) :
  settle env history (and_then t k) =
  match settle env history t with
  | Ok a => k a
  | Raise e => Raise e
  end.
Proof. unfold settle. simpl. by destruct (provider _ _ _). Qed.

Lemma settle_responsive {A} env history (t : Task A) :
  responsive env -> (forall reply, is_ok (resume t reply)) ->
  exists a, settle env history t = Ok a.
Proof.
  intros Hr Ht. unfold settle. specialize (Hr history (request t)).
  destruct (provider _ _ _) as [reply|]; [|done].
  specialize (Ht reply). destruct (resume t reply); [eauto | done].
Qed.

Lemma resume_flagged_ok (self : BaseAgent.t) messages key value reply :
  is_ok (resume (and_then (generate_response self messages)
                   (fun response => Ok (AgentResponse.set_metadata key value response)))
                reply).
Proof.
  destruct (resume_generate_response self messages reply) as (c & Hc & _).
  cbn [and_then resume]. cbn [resume] in Hc. by rewrite Hc.
Qed.


(** ** The nodes *)

Ltac node_unfold :=
  unfold create_initial_draft, council_debate, update_draft, final_edit,
    bind, notify, await, gather, ret, raise, after, emitted, ev,
    draft_task, feedback_tasks, revise_task, edit_task, debate_status,
    round_written, draft_written, final_written, debate_outcome,
    debate_events, revision_events, final_events, draft_events, entry_of.

Ltac world_eq := cbn [calls notified]; rewrite <- ?app_assoc, ?app_nil_r; try done.

Section NodeFacts.
Variable env : Env.
Variable self : t.
Implicit Types (state : CouncilState.t) (w : World).

Lemma create_initial_draft_run state w response :
  attentive (ui_callback self) ->
  settle env (calls w) (draft_task self state) = Ok response ->
  create_initial_draft env self state w =
    (Ok (draft_written (AgentResponse.content response) (Some 0)),
     after w [Single (request (draft_task self state))] (ui_callback self)
       (draft_events response)).
Proof.
  intros Hat Hs. node_unfold.
  destruct (ui_callback self) as [cb|] eqn:E; cbn [calls notified].
  - rewrite !(Hat cb eq_refl). cbn [calls notified].
    unfold draft_task in Hs. rewrite Hs. rewrite !(Hat cb eq_refl). world_eq.
  - unfold draft_task in Hs. rewrite Hs. world_eq.
Qed.

Lemma create_initial_draft_Ok state w u w' :
  create_initial_draft env self state w = (Ok u, w') ->
  exists response,
    settle env (calls w) (draft_task self state) = Ok response /\
    u = draft_written (AgentResponse.content response) (Some 0) /\
    w' = after w [Single (request (draft_task self state))] (ui_callback self)
           (draft_events response).
Proof.
  node_unfold.
  destruct (ui_callback self) as [cb|]; cbn [calls notified].
  - destruct (cb _ _); [|done]. cbn [calls notified].
    destruct (settle _ _ _) as [response|]; [|done].
    destruct (cb _ _); [|done]. intros [= <- <-].
    exists response. repeat split. world_eq.
  - destruct (settle _ _ _) as [response|]; [|done]. intros [= <- <-].
    exists response. repeat split. world_eq.
Qed.

Lemma council_debate_run state w responses :
  attentive (ui_callback self) ->
  debate_outcome env self state w = Ok responses ->
  council_debate env self state w =
    (Ok (round_written (CouncilState.current_round state + 1)
           (List.map entry_of responses)),
     after w [FanOut (List.map request (feedback_tasks self state))]
       (ui_callback self) (debate_events state responses)).
Proof.
  intros Hat Hs. unfold debate_outcome in Hs. node_unfold.
  destruct (ui_callback self) as [cb|] eqn:E; cbn [calls notified].
  - rewrite !(Hat cb eq_refl). cbn [calls notified].
    unfold feedback_tasks in Hs. rewrite Hs. rewrite !(Hat cb eq_refl). world_eq.
  - unfold feedback_tasks in Hs. rewrite Hs. world_eq.
Qed.

Lemma council_debate_Ok state w u w' :
  council_debate env self state w = (Ok u, w') ->
  exists responses,
    debate_outcome env self state w = Ok responses /\
    u = round_written (CouncilState.current_round state + 1)
          (List.map entry_of responses) /\
    w' = after w [FanOut (List.map request (feedback_tasks self state))]
           (ui_callback self) (debate_events state responses).
Proof.
  unfold debate_outcome. node_unfold.
  destruct (ui_callback self) as [cb|]; cbn [calls notified].
  - destruct (cb _ _); [|done]. cbn [calls notified].
    destruct (join_results _ _) as [responses|]; [|done].
    destruct (cb _ _); [|done]. intros [= <- <-].
    exists responses. repeat split. world_eq.
  - destruct (join_results _ _) as [responses|]; [|done]. intros [= <- <-].
    exists responses. repeat split. world_eq.
Qed.

Lemma council_debate_fail state w e :
  attentive (ui_callback self) ->
  debate_outcome env self state w = Raise e ->
  council_debate env self state w =
    (Raise e,
     after w [FanOut (List.map request (feedback_tasks self state))]
       (ui_callback self) [debate_status state]).
Proof.
  intros Hat Hs. unfold debate_outcome in Hs. node_unfold.
  destruct (ui_callback self) as [cb|] eqn:E; cbn [calls notified].
  - rewrite !(Hat cb eq_refl). cbn [calls notified].
    unfold feedback_tasks in Hs. rewrite Hs. world_eq.
  - unfold feedback_tasks in Hs. rewrite Hs. world_eq.
Qed.

Lemma update_draft_run state w latest response :
  attentive (ui_callback self) ->
  last (CouncilState.feedback_history state) = Some latest ->
  settle env (calls w) (revise_task self state latest) = Ok response ->
  update_draft env self state w =
    (Ok (draft_written (AgentResponse.content response) None),
     after w [Single (request (revise_task self state latest))]
       (ui_callback self) (revision_events response)).
Proof.
  intros Hat Hl Hs. unfold revise_task in Hs. node_unfold. rewrite Hl.
  destruct (ui_callback self) as [cb|] eqn:E; cbn [calls notified].
  - rewrite !(Hat cb eq_refl). cbn [calls notified].
    rewrite Hs. rewrite !(Hat cb eq_refl). world_eq.
  - rewrite Hs. world_eq.
Qed.

Lemma update_draft_Ok state w u w' :
  update_draft env self state w = (Ok u, w') ->
  exists latest response,
    last (CouncilState.feedback_history state) = Some latest /\
    settle env (calls w) (revise_task self state latest) = Ok response /\
    u = draft_written (AgentResponse.content response) None /\
    w' = after w [Single (request (revise_task self state latest))]
           (ui_callback self) (revision_events response).
Proof.
  node_unfold.
  destruct (last (CouncilState.feedback_history state)) as [latest|];
    destruct (ui_callback self) as [cb|]; cbn [calls notified];
    try (destruct (cb _ _); [|done]; cbn [calls notified]); try done.
  - destruct (settle _ _ _) as [response|] eqn:Hs; [|done].
    destruct (cb _ _); [|done]. intros [= <- <-].
    exists latest, response. do 3 (split; [done|]). world_eq.
  - destruct (settle _ _ _) as [response|] eqn:Hs; [|done]. intros [= <- <-].
    exists latest, response. do 3 (split; [done|]). world_eq.
Qed.

Lemma final_edit_run state w response :
  attentive (ui_callback self) ->
  settle env (calls w) (edit_task self state) = Ok response ->
  final_edit env self state w =
    (Ok (final_written (AgentResponse.content response)),
     after w [Single (request (edit_task self state))]
       (ui_callback self) (final_events response)).
Proof.
  intros Hat Hs. unfold edit_task in Hs. node_unfold.
  destruct (ui_callback self) as [cb|] eqn:E; cbn [calls notified].
  - rewrite !(Hat cb eq_refl). cbn [calls notified].
    rewrite Hs. rewrite !(Hat cb eq_refl). world_eq.
  - rewrite Hs. world_eq.
Qed.

Lemma final_edit_Ok state w u w' :
  final_edit env self state w = (Ok u, w') ->
  exists response,
    settle env (calls w) (edit_task self state) = Ok response /\
    u = final_written (AgentResponse.content response) /\
    w' = after w [Single (request (edit_task self state))]
           (ui_callback self) (final_events response).
Proof.
  node_unfold.
  destruct (ui_callback self) as [cb|]; cbn [calls notified].
  - destruct (cb _ _); [|done]. cbn [calls notified].
    destruct (settle _ _ _) as [response|]; [|done].
    destruct (cb _ _); [|done]. intros [= <- <-].
    exists response. repeat split. world_eq.
  - destruct (settle _ _ _) as [response|]; [|done]. intros [= <- <-].
    exists response. repeat split. world_eq.
Qed.
End NodeFacts.

(** ** The graph runtime and the debate loop *)

Lemma pregel_S g limit n state w :
  pregel g (S limit) n state w =
  match node g n state w with
  | (Raise e, w') =>
      {| outcome := Raise e; visited := [(n, state, w)]; end_world := w' |}
  | (Ok u, w') =>
      let state' := Update.apply state u in
      match next g n state' with
      | None =>
          {| outcome := Ok state'; visited := [(n, state, w)]; end_world := w' |}
      | Some n' =>
          let r := pregel g limit n' state' w' in
          {| outcome := outcome r;
             visited := (n, state, w) :: visited r;
             end_world := end_world r |}
      end
  end.
Proof. done. Qed.

Lemma pregel_next g limit n state w u w' n' :
  node g n state w = (Ok u, w') ->
  next g n (Update.apply state u) = Some n' ->
  pregel g (S limit) n state w =
  preceded_by (n, state, w) (pregel g limit n' (Update.apply state u) w').
Proof. intros Hn Hx. rewrite pregel_S, Hn. cbn zeta. by rewrite Hx. Qed.

Lemma pregel_end g limit n state w u w' :
  node g n state w = (Ok u, w') ->
  next g n (Update.apply state u) = None ->
  pregel g (S limit) n state w =
  {| outcome := Ok (Update.apply state u); visited := [(n, state, w)];
     end_world := w' |}.
Proof. intros Hn Hx. rewrite pregel_S, Hn. cbn zeta. by rewrite Hx. Qed.

Lemma pregel_raise g limit n state w e w' :
  node g n state w = (Raise e, w') ->
  pregel g (S limit) n state w =
  {| outcome := Raise e; visited := [(n, state, w)]; end_world := w' |}.
Proof. intros Hn. by rewrite pregel_S, Hn. Qed.

Lemma stages_preceded_by c r : stages (preceded_by c r) = fst (fst c) :: stages r.
Proof. done. Qed.

Lemma fan_outs_app cs cs' : fan_outs (cs ++ cs') = (fan_outs cs + fan_outs cs')%nat.
Proof. unfold fan_outs. by rewrite filter_app, length_app. Qed.

Lemma debate_outcome_length env self state w responses :
  debate_outcome env self state w = Ok responses ->
  length responses = length (council_members self).
Proof.
  unfold debate_outcome. intros H. apply join_results_Ok_inv in H.
  apply (f_equal length) in H. rewrite !length_map in H.
  unfold feedback_tasks in H. by rewrite length_map in H.
Qed.

Lemma should_continue_after_debate self state round fb :
  should_continue_debate self (Update.apply state (round_written round fb)) =
  if CouncilState.max_rounds state <=? round then end_ else continue_.
Proof. unfold should_continue_debate. cbn. by rewrite Z.geb_leb. Qed.

Lemma labels_draft_events response :
  List.map label (draft_events response) =
  [(lit "status", None); (lit "draft_created", None)].
Proof. done. Qed.

Lemma labels_debate_events state responses :
  List.map label (debate_events state responses) =
  [(lit "status", None);
   (lit "feedback_round",
    Some (CouncilState.current_round state + 1, length responses))].
Proof. unfold debate_events, label. cbn. by rewrite length_map. Qed.

Lemma labels_revision_events response :
  List.map label (revision_events response) =
  [(lit "status", None); (lit "draft_updated", None)].
Proof. done. Qed.

Lemma labels_final_events response :
  List.map label (final_events response) =
  [(lit "status", None); (lit "final_response", None)].
Proof. done. Qed.

Section Loop.
Variable env : Env.
Variable self : t.
Local Abbreviation g := (_build_workflow env self).
Local Abbreviation ui := (ui_callback self).
Local Abbreviation members := (length (council_members self)).

Lemma debate_safe limit : forall state w final,
  let r := pregel g limit Node.council_debate state w in
  outcome r = Ok final ->
  stages r = stages_from_debate (rounds_left state) /\
  length (CouncilState.feedback_history final)
    = (length (CouncilState.feedback_history state) + S (rounds_left state))%nat /\
  length (CouncilState.drafts final)
    = (length (CouncilState.drafts state) + rounds_left state)%nat /\
  fan_outs (calls (end_world r))
    = (fan_outs (calls w) + S (rounds_left state))%nat /\
  List.map label (notified (end_world r))
    = List.map label (notified w)
      ++ emitted ui (labels_from_debate members
                       (CouncilState.current_round state + 1) (rounds_left state)).
Proof.
  induction limit as [limit IH] using lt_wf_ind. intros state w final r.
  subst r. destruct limit as [|limit]; [done|].
  destruct (council_debate env self state w) as [[u|e] w1] eqn:E1;
    [|by erewrite pregel_raise].
  pose proof E1 as E1'.
  apply council_debate_Ok in E1' as (responses & Hout & -> & ->).
  apply debate_outcome_length in Hout.
  set (state1 := Update.apply state
         (round_written (CouncilState.current_round state + 1)
            (List.map entry_of responses))).
  set (w1 := after w [FanOut (List.map request (feedback_tasks self state))] ui
               (debate_events state responses)).
  destruct (CouncilState.max_rounds state <=? CouncilState.current_round state + 1)
    eqn:G.
  - (* the last debate *)
    erewrite pregel_next;
      [|exact E1|cbn [next _build_workflow]; by rewrite should_continue_after_debate, G].
    apply Z.leb_le in G.
    destruct limit as [|limit]; [done|].
    destruct (final_edit env self state1 w1) as [[u|e] w2] eqn:E2;
      [|by erewrite pregel_raise].
    erewrite pregel_end; [|exact E2|done].
    apply final_edit_Ok in E2 as (response & _ & -> & ->).
    intros Hfinal. cbn [preceded_by outcome] in Hfinal. injection Hfinal as <-.
    rewrite !stages_preceded_by. unfold stages at 1.
    cbn [preceded_by end_world visited List.map fst].
    assert (Hk : rounds_left state = 0%nat) by (unfold rounds_left; lia).
    rewrite Hk. subst state1 w1. cbn [stages_from_debate labels_from_debate].
    unfold after. cbn [calls notified Update.apply CouncilState.feedback_history
      CouncilState.drafts round_written final_written Update.feedback_history
      Update.drafts default].
    rewrite !length_app, !fan_outs_app. cbn [length].
    change (fan_outs [FanOut _]) with 1%nat.
    change (fan_outs [Single _]) with 0%nat.
    unfold id. cbn [length].
    repeat split; try lia.
    destruct ui; cbn [emitted].
    + rewrite !map_app, labels_debate_events, labels_final_events, Hout.
      by rewrite <- !app_assoc.
    + by rewrite !app_nil_r.
  - (* another round *)
    erewrite pregel_next;
      [|exact E1|cbn [next _build_workflow]; by rewrite should_continue_after_debate, G].
    apply Z.leb_gt in G.
    destruct limit as [|limit]; [done|].
    destruct (update_draft env self state1 w1) as [[u|e] w2] eqn:E2;
      [|by erewrite pregel_raise].
    erewrite pregel_next; [|exact E2|done].
    apply update_draft_Ok in E2 as (latest & response & _ & _ & -> & ->).
    intros Hfinal. cbn [preceded_by outcome] in Hfinal.
    destruct (IH limit ltac:(lia) _ _ final Hfinal) as (H1 & H2 & H3 & H4 & H5).
    rewrite !stages_preceded_by. cbn [preceded_by end_world fst].
    match type of H1 with
    | stages (pregel _ _ _ ?s _) = _ =>
        assert (Hk : rounds_left state = S (rounds_left s))
    end.
    { unfold rounds_left, state1. cbn. lia. }
    rewrite Hk, H1, H2, H3, H4, H5.
    cbn [stages_from_debate labels_from_debate fst].
    subst state1 w1. unfold after.
    cbn [calls notified Update.apply CouncilState.feedback_history
      CouncilState.drafts CouncilState.current_round round_written draft_written
      Update.feedback_history Update.current_round Update.drafts default].
    rewrite !length_app, !fan_outs_app. unfold id. cbn [length].
    change (fan_outs [FanOut _]) with 1%nat.
    change (fan_outs [Single _]) with 0%nat.
    repeat split; try lia.
    destruct ui; cbn [emitted].
    + rewrite !map_app, labels_debate_events, labels_revision_events, Hout.
      by rewrite <- !app_assoc.
    + by rewrite !app_nil_r.
Qed.
End Loop.

Lemma all_settled {A B} (f : A -> result B) (l : list A) :
  (forall a, In a l -> exists b, f a = Ok b) ->
  exists values, List.map f l = List.map Ok values.
Proof.
  induction l as [|a l IH]; intros H.
  - by exists [].
  - destruct (H a) as [b Hb]; [by left|].
    destruct IH as [values Hv]; [intros; apply H; by right|].
    exists (b :: values). cbn. by rewrite Hb, Hv.
Qed.

Lemma debate_outcome_responsive env self state w :
  responsive env -> exists responses, debate_outcome env self state w = Ok responses.
Proof.
  intros Hr. unfold debate_outcome.
  destruct (all_settled (settle env (calls w)) (feedback_tasks self state)) as [values Hv].
  - intros t Ht. apply settle_responsive; [done|].
    unfold feedback_tasks in Ht. apply in_map_iff in Ht as (member & <- & _).
    intros reply. apply resume_flagged_ok.
  - exists values. rewrite Hv. apply join_results_Ok.
Qed.

Section Liveness.
Variable env : Env.
Variable self : t.
Hypothesis Hresp : responsive env.
Hypothesis Hatt : attentive (ui_callback self).
Local Abbreviation g := (_build_workflow env self).

Lemma debate_live limit : forall state w,
  (2 * rounds_left state + 2 <= limit)%nat ->
  is_ok (outcome (pregel g limit Node.council_debate state w)).
Proof.
  induction limit as [limit IH] using lt_wf_ind. intros state w Hlim.
  destruct limit as [|limit]; [lia|].
  destruct (debate_outcome_responsive env self state w Hresp) as [responses Hout].
  pose proof (council_debate_run env self state w responses Hatt Hout) as E1.
  set (state1 := Update.apply state
         (round_written (CouncilState.current_round state + 1)
            (List.map entry_of responses))) in *.
  destruct (CouncilState.max_rounds state <=? CouncilState.current_round state + 1)
    eqn:G.
  - erewrite pregel_next;
      [|exact E1|cbn [next _build_workflow]; by rewrite should_continue_after_debate, G].
    destruct limit as [|limit]; [lia|].
    destruct (settle_responsive env
                (calls (after w [FanOut (List.map request (feedback_tasks self state))]
                          (ui_callback self) (debate_events state responses)))
                (edit_task self state1) Hresp) as [response Hs].
    { intros reply. apply resume_flagged_ok. }
    erewrite pregel_end; [|by apply final_edit_run|done]. done.
  - erewrite pregel_next;
      [|exact E1|cbn [next _build_workflow]; by rewrite should_continue_after_debate, G].
    apply Z.leb_gt in G.
    assert (Hk : rounds_left state = S (rounds_left state1)).
    { unfold rounds_left, state1. cbn. lia. }
    destruct limit as [|limit]; [lia|].
    assert (Hlast : last (CouncilState.feedback_history state1)
                    = Some (List.map entry_of responses)).
    { unfold state1. cbn. by rewrite last_snoc. }
    destruct (settle_responsive env
                (calls (after w [FanOut (List.map request (feedback_tasks self state))]
                          (ui_callback self) (debate_events state responses)))
                (revise_task self state1 (List.map entry_of responses)) Hresp)
      as [response Hs].
    { intros reply. apply resume_flagged_ok. }
    erewrite pregel_next; [|by eapply update_draft_run|done].
    cbn [preceded_by outcome]. apply (IH limit); [lia|].
    match goal with
    | |- (2 * rounds_left ?s + 2 <= _)%nat =>
        change (rounds_left s) with (rounds_left state1)
    end.
    rewrite Hk in Hlim. clear -Hlim. clearbody state1. lia.
Qed.
End Liveness.

(** ** Whole runs *)

Lemma rounds_left_after_draft self user_query c :
  rounds_left (Update.apply (initial_state self user_query) (draft_written c (Some 0)))
  = updates_planned self.
Proof. unfold rounds_left, updates_planned. cbn. f_equal. lia. Qed.

Section Visited.
Variable env : Env.
Variable self : t.
Local Abbreviation g := (_build_workflow env self).

Lemma debate_visited limit : forall state w,
  length (CouncilState.drafts state)
    = S (length (CouncilState.feedback_history state)) ->
  Forall drafts_vs_feedback (visited (pregel g limit Node.council_debate state w)).
Proof.
  induction limit as [limit IH] using lt_wf_ind. intros state w Hinv.
  destruct limit as [|limit]; [constructor|].
  assert (Hhere : drafts_vs_feedback (Node.council_debate, state, w)) by done.
  destruct (council_debate env self state w) as [[u|e] w1] eqn:E1;
    [|erewrite pregel_raise by done; cbn [visited];
      constructor; [exact Hhere | constructor]].
  pose proof E1 as E1'.
  apply council_debate_Ok in E1' as (responses & _ & -> & ->).
  set (state1 := Update.apply state
         (round_written (CouncilState.current_round state + 1)
            (List.map entry_of responses))).
  set (w1 := after w [FanOut (List.map request (feedback_tasks self state))]
               (ui_callback self) (debate_events state responses)).
  assert (Hinv1 : length (CouncilState.drafts state1)
                  = length (CouncilState.feedback_history state1)
                  /\ (1 <= length (CouncilState.feedback_history state1))%nat).
  { unfold state1. cbn. rewrite !length_app. cbn. lia. }
  destruct (CouncilState.max_rounds state <=? CouncilState.current_round state + 1)
    eqn:G.
  - erewrite pregel_next;
      [|exact E1|cbn [next _build_workflow]; by rewrite should_continue_after_debate, G].
    cbn [preceded_by visited]. constructor; [done|].
    destruct limit as [|limit]; [constructor|].
    destruct (final_edit env self state1 w1) as [[u|e] w2] eqn:E2.
    + erewrite pregel_end by done. cbn [visited].
      constructor; [exact Hinv1 | constructor].
    + erewrite pregel_raise by done. cbn [visited].
      constructor; [exact Hinv1 | constructor].
  - erewrite pregel_next;
      [|exact E1|cbn [next _build_workflow]; by rewrite should_continue_after_debate, G].
    cbn [preceded_by visited]. constructor; [done|].
    destruct limit as [|limit]; [constructor|].
    destruct (update_draft env self state1 w1) as [[u|e] w2] eqn:E2;
      [|erewrite pregel_raise by done; cbn [visited];
        constructor; [exact Hinv1 | constructor]].
    erewrite pregel_next; [|exact E2|done].
    apply update_draft_Ok in E2 as (latest & response & _ & _ & -> & ->).
    cbn [preceded_by visited]. constructor; [exact Hinv1|].
    apply IH; [lia|]. destruct Hinv1 as [Hd _]. cbn.
    rewrite !length_app. cbn. cbn in Hd. rewrite !length_app in Hd. cbn in Hd. lia.
Qed.

Lemma execution_visited limit user_query w :
  Forall drafts_vs_feedback (visited (execution env self limit user_query w)).
Proof.
  unfold execution, ainvoke. cbn [entry _build_workflow].
  destruct limit as [|limit]; [constructor|].
  set (state0 := initial_state self user_query).
  assert (Hhere : drafts_vs_feedback (Node.create_draft, state0, w)) by done.
  destruct (create_initial_draft env self state0 w) as [[u|e] w1] eqn:E1;
    [|erewrite pregel_raise by done; cbn [visited];
      constructor; [exact Hhere | constructor]].
  erewrite pregel_next; [|exact E1|done].
  apply create_initial_draft_Ok in E1 as (response & _ & -> & ->).
  cbn [preceded_by visited]. constructor; [done|].
  by apply debate_visited.
Qed.

(** A successful run, from its first node on. *)
Lemma execution_safe limit user_query w final :
  let r := execution env self limit user_query w in
  outcome r = Ok final ->
  stages r = Node.create_draft :: stages_from_debate (updates_planned self) /\
  length (CouncilState.feedback_history final) = S (updates_planned self) /\
  length (CouncilState.drafts final) = S (updates_planned self) /\
  fan_outs (calls (end_world r))
    = (fan_outs (calls w) + S (updates_planned self))%nat /\
  List.map label (notified (end_world r))
    = List.map label (notified w)
      ++ emitted (ui_callback self)
           ((lit "status", None) :: (lit "draft_created", None) ::
            labels_from_debate (length (council_members self)) 1
              (updates_planned self)).
Proof.
  intros r. subst r. unfold execution, ainvoke. cbn [entry _build_workflow].
  destruct limit as [|limit]; [done|].
  set (state0 := initial_state self user_query).
  destruct (create_initial_draft env self state0 w) as [[u|e] w1] eqn:E1;
    [|by erewrite pregel_raise].
  erewrite pregel_next; [|exact E1|done].
  apply create_initial_draft_Ok in E1 as (response & _ & -> & ->).
  intros Hfinal. cbn [preceded_by outcome] in Hfinal.
  destruct (debate_safe env self limit _ _ final Hfinal) as (H1 & H2 & H3 & H4 & H5).
  rewrite stages_preceded_by. cbn [preceded_by end_world fst].
  rewrite H1, H2, H3, H4, H5. unfold after.
  cbn [calls notified]. rewrite fan_outs_app.
  change (fan_outs [Single _]) with 0%nat.
  unfold state0. rewrite !rounds_left_after_draft.
  repeat split; try (cbn; lia).
  rewrite map_app. destruct (ui_callback self); cbn [emitted].
  - rewrite labels_draft_events. by rewrite <- app_assoc.
  - by rewrite !app_nil_r.
Qed.

Lemma execution_live limit user_query w :
  responsive env -> attentive (ui_callback self) ->
  (2 * updates_planned self + 3 <= limit)%nat ->
  is_ok (outcome (execution env self limit user_query w)).
Proof.
  intros Hresp Hatt Hlim. unfold execution, ainvoke. cbn [entry _build_workflow].
  destruct limit as [|limit]; [lia|].
  set (state0 := initial_state self user_query).
  destruct (settle_responsive env (calls w) (draft_task self state0) Hresp)
    as [response Hs].
  { intros reply.
    destruct (resume_generate_response (draft_agent self) [] reply) as (c & Hc & _).
    cbn [resume generate_response] in Hc.
    unfold draft_task, DraftAgent.create_initial_draft.
    cbn [resume generate_response]. by rewrite Hc. }
  erewrite pregel_next; [|by apply create_initial_draft_run|done].
  cbn [preceded_by outcome]. apply debate_live; [done|done|].
  unfold state0. rewrite rounds_left_after_draft. lia.
Qed.
End Visited.

(** ** The nodes in closed form, and runs that differ in their callback *)

Section ClosedForms.
Variable env : Env.
Variable self : t.
Hypothesis Hat : attentive (ui_callback self).
Local Abbreviation ui := (ui_callback self).


Lemma council_debate_eq state w :
  council_debate env self state w =
  match debate_outcome env self state w with
  | Ok responses =>
      (Ok (round_written (CouncilState.current_round state + 1)
             (List.map entry_of responses)),
       after w [FanOut (List.map request (feedback_tasks self state))] ui
         (debate_events state responses))
  | Raise e =>
      (Raise e,
       after w [FanOut (List.map request (feedback_tasks self state))] ui
         [debate_status state])
  end.
Proof.
  destruct (debate_outcome _ _ _ _) as [responses|e] eqn:Hs.
  - by apply council_debate_run.
  - by apply council_debate_fail.
Qed.


End ClosedForms.

Section Simulation.
Variable env : Env.
Variables self0 self1 : t.
Hypothesis Hsame : same_engine self0 self1.
Hypothesis Hat0 : attentive (ui_callback self0).
Hypothesis Hat1 : attentive (ui_callback self1).
Local Abbreviation g0 := (_build_workflow env self0).
Local Abbreviation g1 := (_build_workflow env self1).




End Simulation.

(** ** Resuming a run from a configuration it went through *)

Section Resume.
Variable env : Env.
Variable self : t.
Local Abbreviation g := (_build_workflow env self).

Lemma node_keeps_feedback n state w u w' :
  node g n state w = (Ok u, w') ->
  (length (CouncilState.feedback_history state)
   <= length (CouncilState.feedback_history (Update.apply state u)))%nat.
Proof.
  cbn [Update.apply CouncilState.feedback_history]. rewrite length_app. lia.
Qed.

Lemma visited_keeps_feedback limit : forall n state w,
  Forall (fun v => (length (CouncilState.feedback_history state)
                    <= rounds_recorded v)%nat)
         (visited (pregel g limit n state w)).
Proof.
  induction limit as [|limit IH]; intros n state w; [constructor|].
  rewrite pregel_S.
  destruct (node g n state w) as [[u|e] w'] eqn:E;
    [|by repeat constructor].
  cbn zeta. destruct (next g n _) as [n'|]; [|by repeat constructor].
  cbn [visited]. constructor; [done|].
  eapply Forall_impl; [apply IH|]. cbn beta. intros v Hv.
  pose proof (node_keeps_feedback _ _ _ _ _ E). lia.
Qed.

(** A configuration a run went through: the run continued from it as a run
    started there would, and nothing recorded more feedback before it. *)
Lemma pregel_resume limit : forall n0 state0 w0 v,
  In v (visited (pregel g limit n0 state0 w0)) ->
  exists limit' before,
    let r := pregel g limit n0 state0 w0 in
    let r' := pregel g (S limit') (fst (fst v)) (snd (fst v)) (snd v) in
    outcome r' = outcome r /\
    end_world r' = end_world r /\
    visited r = before ++ visited r' /\
    Forall (fun b => (rounds_recorded b <= rounds_recorded v)%nat) before.
Proof.
  induction limit as [|limit IH]; intros n0 state0 w0 v Hin; [done|].
  assert (Hself : In v [(n0, state0, w0)] ->
    exists limit' before,
      let r := pregel g (S limit) n0 state0 w0 in
      let r' := pregel g (S limit') (fst (fst v)) (snd (fst v)) (snd v) in
      outcome r' = outcome r /\ end_world r' = end_world r /\
      visited r = before ++ visited r' /\
      Forall (fun b => (rounds_recorded b <= rounds_recorded v)%nat) before).
  { intros [<-|[]]. exists limit, []. cbn [fst snd]. by repeat split. }
  rewrite pregel_S in Hin.
  destruct (node g n0 state0 w0) as [[u|e] w'] eqn:E; [|by apply Hself].
  cbn zeta in Hin. destruct (next g n0 _) as [n'|] eqn:X; [|by apply Hself].
  cbn [visited] in Hin. destruct Hin as [<-|Hin]; [apply Hself; by left|].
  destruct (IH _ _ _ _ Hin) as (limit' & before & Ho & Hw & Hv & Hb).
  exists limit', ((n0, state0, w0) :: before). cbn zeta in *.
  rewrite (pregel_next g limit n0 state0 w0 u w' n' E X).
  cbn [preceded_by outcome end_world visited]. rewrite Ho, Hw, Hv.
  repeat split. constructor; [|done].
  pose proof (visited_keeps_feedback limit n' (Update.apply state0 u) w') as Hge.
  rewrite List.Forall_forall in Hge. specialize (Hge v Hin).
  pose proof (node_keeps_feedback _ _ _ _ _ E).
  unfold rounds_recorded at 1. cbn [fst snd]. lia.
Qed.
End Resume.

(** ** The claims about whole runs *)

Section Last.
Variable env : Env.
Variable self : t.
Local Abbreviation g := (_build_workflow env self).

(** A run that returns ends with the final edit. *)
Lemma pregel_last limit : forall n state w final,
  outcome (pregel g limit n state w) = Ok final ->
  exists state' w' response,
    last (visited (pregel g limit n state w)) = Some (Node.final_edit, state', w') /\
    final = Update.apply state' (final_written (AgentResponse.content response)).
Proof.
  induction limit as [|limit IH]; intros n state w final; [done|].
  rewrite pregel_S. destruct (node g n state w) as [[u|e] w'] eqn:E; [|done].
  cbn zeta. destruct (next g n _) as [n'|] eqn:X.
  - cbn [outcome visited]. intros H. destruct (IH _ _ _ _ H) as (s & w1 & c & Hl & ->).
    exists s, w1, c. split; [|done].
    destruct (visited _) as [|v vs]; [done|]. exact Hl.
  - cbn [outcome visited]. intros [= <-].
    destruct n; cbn [next _build_workflow] in X; try done;
      [by destruct (should_continue_debate _ _)|].
    cbn [node _build_workflow] in E.
    apply final_edit_Ok in E as (response & _ & -> & _). by exists state, w, response.
Qed.
End Last.

Lemma last_In {A} (l : list A) (x : A) : last l = Some x -> In x l.
Proof.
  intros H. apply last_Some in H as [before ->]. apply in_or_app. right. by left.
Qed.




(** C4, as the code has it. At every configuration of every run: no draft and
    no feedback before the initial draft is created; one draft more than
    feedback rounds whenever a debate is about to start; as many drafts as
    feedback rounds whenever a debate has just ended (before an update and
    before the final edit), and in the state a run returns. *)
Theorem drafts_against_feedback env self limit user_query w :
  let r := execution env self limit user_query w in
  Forall drafts_vs_feedback (visited r) /\
  forall final, outcome r = Ok final ->
    length (CouncilState.drafts final)
    = length (CouncilState.feedback_history final).
Proof.
  split; [apply execution_visited|].
  intros final Hfinal.
  destruct (execution_safe env self limit user_query w final Hfinal)
    as (_ & H2 & H3 & _). by rewrite H2, H3.
Qed.

(** C4 as stated fails: in the one-round run the state in which the final edit
    starts holds one draft and one feedback round. *)
Lemma drafts_one_more_than_feedback_fails :
  ~ Forall (fun v =>
              fst (fst v) <> Node.create_draft ->
              length (CouncilState.drafts (snd (fst v)))
              = (1 + length (CouncilState.feedback_history (snd (fst v))))%nat)
           (visited (execution sample_env (__init__ (sample_config 1) None) 3
                       sample_query fresh)).
Proof.
  intros H. rewrite List.Forall_forall in H.
  set (r := execution _ _ _ _ _) in H.
  assert (Hok : exists final, outcome r = Ok final).
  { destruct (outcome r) as [final|e] eqn:E; [eauto|]. exfalso.
    pose proof (execution_live sample_env (__init__ (sample_config 1) None) 3
                  sample_query fresh) as Hl.
    fold r in Hl. rewrite E in Hl. apply Hl; [by intros h q | by intros cb Hcb |].
    vm_compute. lia. }
  destruct Hok as [final Hfinal].
  destruct (pregel_last _ _ _ _ _ _ _ Hfinal) as (s & w' & c & Hl & ->).
  destruct (execution_safe _ _ _ _ _ _ Hfinal) as (_ & H2 & H3 & _).
  assert (Hin : In (Node.final_edit, s, w') (visited r)).
  { apply last_In in Hl. exact Hl. }
  specialize (H _ Hin ltac:(done)). cbn [fst snd] in H.
  cbn in H2, H3. rewrite !length_app in H2, H3. cbn in H2, H3.
  change (updates_planned (__init__ (sample_config 1) None)) with 0%nat in H2, H3.
  lia.
Qed.


(** C7. Two debate rounds and two reviewers: the run emits exactly the ten
    notifications status, draft_created, status, feedback_round(1), status,
    draft_updated, status, feedback_round(2), status, final_response, and runs
    the five stages draft, debate, update, debate, edit: no third debate and no
    second update. *)
Theorem two_round_notifications env config callback limit user_query :
  CouncilConfig.debate_rounds config = 2 ->
  length (CouncilConfig.council_members config) = 2%nat ->
  responsive env ->
  (forall history event, callback history event = Ok tt) ->
  (5 <= limit)%nat ->
  let r := execution env (__init__ config (Some callback)) limit user_query fresh in
  is_ok (outcome r) /\
  List.map label (notified (end_world r)) =
    [(lit "status", None); (lit "draft_created", None);
     (lit "status", None); (lit "feedback_round", Some (1, 2%nat));
     (lit "status", None); (lit "draft_updated", None);
     (lit "status", None); (lit "feedback_round", Some (2, 2%nat));
     (lit "status", None); (lit "final_response", None)] /\
  length (notified (end_world r)) = 10%nat /\
  stages r = [Node.create_draft; Node.council_debate; Node.update_draft;
              Node.council_debate; Node.final_edit] /\
  fan_outs (calls (end_world r)) = 2%nat.
Proof.
  intros HR Hm Hresp Hcb Hlim r.
  set (self := __init__ config (Some callback)) in *.
  assert (Hatt : attentive (ui_callback self)).
  { intros cb [= <-]. apply Hcb. }
  assert (Hk : updates_planned self = 1%nat).
  { unfold updates_planned, self. cbn. rewrite HR. done. }
  assert (Hlen : length (council_members self) = 2%nat).
  { unfold self. cbn. by rewrite length_imap. }
  pose proof (execution_live env self limit user_query fresh Hresp Hatt) as Hlive.
  rewrite Hk in Hlive. specialize (Hlive ltac:(lia)). fold r in Hlive.
  destruct (outcome r) as [final|e] eqn:Hfinal; [|done].
  destruct (execution_safe env self limit user_query fresh final Hfinal)
    as (H1 & _ & _ & H4 & H5).
  fold r in H1, H4, H5. rewrite Hk in H1, H4, H5. rewrite Hlen in H5.
  assert (H6 : length (notified (end_world r)) = 10%nat).
  { apply (f_equal length) in H5. by rewrite length_map in H5. }
  by repeat split.
Qed.

Lemma two_round_notifications_witness :
  let r := execution sample_env (__init__ (sample_config 2) (Some quiet_callback)) 5
             sample_query fresh in
  is_ok (outcome r) /\ length (notified (end_world r)) = 10%nat.
Proof.
  destruct (two_round_notifications sample_env (sample_config 2) quiet_callback 5
              sample_query) as (H1 & _ & H3 & _);
    [done | done | by intros h q | done | lia |].
  by split.
Defined.

(** ** The claims about one stage, the wrapper and the callback *)

Lemma settle_generate_response env history self messages constructed :
  settle env history (generate_response self messages) = Ok constructed ->
  AgentResponse.agent_id constructed = BaseAgent.agent_id self.
Proof.
  unfold settle. destruct (provider _ _ _) as [reply|]; [|done].
  destruct (resume_generate_response self messages reply) as (c & Hc & Hid & _).
  rewrite Hc. by intros [= <-].
Qed.

Lemma feedback_response_agent env history member state response :
  settle env history (feedback_task member state) = Ok response ->
  AgentResponse.agent_id response = BaseAgent.agent_id (CouncilMember.base member).
Proof.
  unfold feedback_task, CouncilMember.provide_feedback. rewrite settle_and_then.
  destruct (settle _ _ _) as [c|] eqn:E; [|done].
  intros [= <-]. by apply settle_generate_response in E.
Qed.

Lemma feedback_tasks_map self state :
  feedback_tasks self state
  = List.map (fun member => feedback_task member state) (council_members self).
Proof. done. Qed.

Lemma settled_in_order {A B} (f : A -> result B) (l : list A) (values : list B) :
  Forall2 (fun a b => f a = Ok b) l values ->
  List.map f l = List.map Ok values.
Proof. induction 1 as [|a b l values Hab _ IH]; [done|]. cbn. by rewrite Hab, IH. Qed.

Lemma agent_ids_in_order (members : list CouncilMember.t)
    (entries : list FeedbackEntry) :
  Forall2 (fun member entry =>
             fb_agent_id entry = BaseAgent.agent_id (CouncilMember.base member))
          members entries ->
  List.map fb_agent_id entries
  = List.map (fun member => BaseAgent.agent_id (CouncilMember.base member)) members.
Proof. induction 1 as [|m e ms es He _ IH]; [done|]. cbn. by rewrite He, IH. Qed.

Lemma responsive_reviewers env self state w :
  responsive env ->
  exists responses,
    Forall2 (fun member response =>
               settle env (calls w) (feedback_task member state) = Ok response)
            (council_members self) responses.
Proof.
  intros Hr. induction (council_members self) as [|member members [responses IH]].
  - exists []. constructor.
  - destruct (settle_responsive env (calls w) (feedback_task member state) Hr)
      as [response Hs]; [intros reply; apply resume_flagged_ok|].
    exists (response :: responses). by constructor.
Qed.

(** C2. In every critique round the list appended to [feedback_history], the
    list handed to the [feedback_round] event and the list the revision step
    reads are the same list: one entry per configured reviewer, in configured
    order, whatever the order in which the reviewers' calls complete. *)
Theorem feedback_in_reviewer_order answers order self state w responses :
  let env := {| provider := answers; completion_order := order |} in
  let round := CouncilState.current_round state + 1 in
  let round_feedback := List.map entry_of responses in
  attentive (ui_callback self) ->
  Forall2 (fun member response =>
             settle env (calls w) (feedback_task member state) = Ok response)
          (council_members self) responses ->
  council_debate env self state w =
    (Ok (round_written round round_feedback),
     after w [FanOut (List.map request (feedback_tasks self state))]
       (ui_callback self)
       [debate_status state; ev (lit "feedback_round") (PRound round round_feedback)]) /\
  Forall2 (fun member entry =>
             fb_agent_id entry = BaseAgent.agent_id (CouncilMember.base member))
          (council_members self) round_feedback /\
  last (CouncilState.feedback_history
          (Update.apply state (round_written round round_feedback)))
    = Some round_feedback.
Proof.
  intros env round round_feedback Hatt Hall. repeat split.
  - apply council_debate_run; [done|].
    unfold debate_outcome. rewrite feedback_tasks_map, List.map_map.
    rewrite (settled_in_order _ _ _ Hall). apply join_results_Ok.
  - subst round_feedback. clear -Hall.
    induction Hall as [|member response members responses Hs _ IH]; [constructor|].
    cbn. constructor; [|exact IH]. by apply feedback_response_agent in Hs.
  - cbn. by rewrite last_snoc.
Qed.

Lemma feedback_in_reviewer_order_witness :
  let self := __init__ (sample_config 1) (Some quiet_callback) in
  let state := initial_state self sample_query in
  exists responses,
    fst (council_debate sample_env self state fresh)
      = Ok (round_written 1 (List.map entry_of responses)) /\
    List.map fb_agent_id (List.map entry_of responses)
      = [lit "council_member_0"; lit "council_member_1"].
Proof.
  intros self state.
  destruct (responsive_reviewers sample_env self state fresh) as [responses Hall];
    [by intros h q|].
  exists responses.
  destruct (feedback_in_reviewer_order (provider sample_env) (fun _ => [1; 0]%nat)
              self state fresh responses) as (Hrun & Hids & _).
  - intros cb [= <-]. done.
  - exact Hall.
  - split.
    + change {| provider := provider sample_env;
                completion_order := fun _ => [1; 0]%nat |} with sample_env in Hrun.
      by rewrite Hrun.
    + rewrite (agent_ids_in_order _ _ Hids). by vm_compute.
Defined.

(** C3, as the code has it. A reply that contains "Summary:" is split at the
    last occurrence of the marker: content is the stripped text before it and
    summary the stripped text after it, neither starts or ends with
    whitespace, and the summary is non-empty exactly when something other
    than whitespace follows the marker. A reply without the marker gives the
    stripped reply and an empty summary. *)
Theorem split_summary_spec (text : str) :
  if contains marker text then
    exists before after,
      text = before ++ marker ++ after /\
      contains marker (tail (marker ++ after)) = false /\
      split_summary text = Ok (strip before, strip after) /\
      no_outer_space (strip before) /\
      no_outer_space (strip after) /\
      (strip after <> [] <-> exists c, In c after /\ isspace c = false)
  else
    split_summary text = Ok (strip text, []) /\ no_outer_space (strip text).
Proof.
  unfold split_summary, rsplit1.
  destruct (contains marker text) eqn:C.
  - apply contains_rpartition in C as [[before after] E]. rewrite E.
    apply rpartition_split in E as [-> Hlast].
    exists before, after. repeat split; try apply strip_no_outer_space.
    + by apply Hlast.
    + by apply strip_nonempty_iff.
    + by apply strip_nonempty_iff.
  - split; [done | apply strip_no_outer_space].
Qed.

(** C3 as stated fails: nothing but whitespace after the marker gives an
    empty summary. *)
Lemma split_summary_empty_summary :
  ~ (forall text : str,
       contains marker text = true ->
       exists content summary,
         split_summary text = Ok (content, summary) /\ summary <> []).
Proof.
  intros H. destruct (H (lit "Hello Summary:  ") eq_refl) as (c & s & E & Hs).
  vm_compute in E. congruence.
Qed.

Section ReviewerFailure.
Variable env : Env.
Variable self : t.

Lemma failed_reviewer state w e :
  debate_outcome env self state w = Raise e ->
  exists failed,
    In failed (council_members self) /\
    settle env (calls w) (feedback_task failed state) = Raise e.
Proof.
  unfold debate_outcome. intros H. apply join_results_Raise in H as [i Hi].
  rewrite feedback_tasks_map, List.map_map in Hi.
  rewrite list_lookup_fmap in Hi.
  destruct (council_members self !! i) as [failed|] eqn:Hm; [|done].
  exists failed. split; [|by injection Hi].
  apply list_elem_of_In. by eapply list_elem_of_lookup_2.
Qed.

Lemma failing_reviewer_fails_round state w member e0 :
  In member (council_members self) ->
  settle env (calls w) (feedback_task member state) = Raise e0 ->
  exists e, debate_outcome env self state w = Raise e.
Proof.
  intros Hin Hs. apply list_elem_of_In, list_elem_of_lookup in Hin as [i Hi].
  unfold debate_outcome. apply (join_results_failure _ _ i e0).
  rewrite feedback_tasks_map, List.map_map, list_lookup_fmap, Hi. cbn. by rewrite Hs.
Qed.
End ReviewerFailure.

(** C6. When a reviewer's call fails in the fan-out of a round, the run fails
    with the error of a failing reviewer, unchanged (the error of that one
    reviewer when no other fails differently); the failing debate is the last
    stage of the run, no state of the run holds more feedback rounds than the
    one in which that debate started, the fan-out is the last call made (no
    revision follows) and no [feedback_round] event is emitted for the
    round. *)
Theorem reviewer_failure_aborts_round env self limit user_query w state wd member e0 :
  let r := execution env self limit user_query w in
  attentive (ui_callback self) ->
  In (Node.council_debate, state, wd) (visited r) ->
  In member (council_members self) ->
  settle env (calls wd) (feedback_task member state) = Raise e0 ->
  exists e,
    outcome r = Raise e /\
    fst (run env self limit user_query w) = Raise e /\
    (exists failed,
       In failed (council_members self) /\
       settle env (calls wd) (feedback_task failed state) = Raise e) /\
    ((forall other e',
        In other (council_members self) ->
        settle env (calls wd) (feedback_task other state) = Raise e' -> e' = e0) ->
     e = e0) /\
    last (visited r) = Some (Node.council_debate, state, wd) /\
    Forall (fun v => (rounds_recorded v
                      <= length (CouncilState.feedback_history state))%nat)
           (visited r) /\
    calls (end_world r)
      = calls wd ++ [FanOut (List.map request (feedback_tasks self state))] /\
    notified (end_world r)
      = notified wd ++ emitted (ui_callback self) [debate_status state].
Proof.
  intros r Hatt Hin Hmember Hfail. subst r.
  unfold run, execution, ainvoke in *.
  destruct (failing_reviewer_fails_round env self state wd member e0 Hmember Hfail)
    as [e He].
  destruct (pregel_resume env self _ _ _ _ _ Hin)
    as (limit' & before & Ho & Hw & Hv & Hb).
  cbn [fst snd] in Ho, Hw, Hv, Hb.
  assert (Hnode : council_debate env self state wd =
                  (Raise e,
                   after wd [FanOut (List.map request (feedback_tasks self state))]
                     (ui_callback self) [debate_status state])).
  { rewrite council_debate_eq by done. by rewrite He. }
  rewrite (pregel_raise (_build_workflow env self) limit' Node.council_debate
             state wd e _ Hnode) in Ho, Hw, Hv.
  cbn [outcome end_world visited] in Ho, Hw, Hv.
  exists e. cbn [fst]. rewrite <- Ho, <- Hw, Hv.
  repeat split.
  - by apply failed_reviewer.
  - intros Honly. destruct (failed_reviewer env self state wd e He) as (f & Hf & Hs).
    by apply (Honly f e).
  - by rewrite last_snoc.
  - apply Forall_app. split; [exact Hb|]. by repeat constructor.
Qed.

Lemma reviewer_failure_aborts_round_witness :
  fst (run flaky_env (__init__ (sample_config 2) None) 5 sample_query fresh)
  = Raise (ProviderError 429).
Proof.
  set (self := __init__ (sample_config 2) None).
  set (state := Update.apply (initial_state self sample_query)
                  (draft_written (lit "Looks fine.") (Some 0))).
  set (wd := {| calls := [Single (request (draft_task self
                                             (initial_state self sample_query)))];
                notified := [] |}).
  assert (Hmember : In (CouncilMember.__init__ 1 (lit "gpt-4o-mini") 0.5%float
                          (Some (lit "Council Member 2")))
                       (council_members self)).
  { right. left. by vm_compute. }
  destruct (reviewer_failure_aborts_round flaky_env self 5 sample_query fresh
              state wd _ (ProviderError 429) ltac:(by intros cb Hcb)
              ltac:(vm_compute; right; left; reflexivity) Hmember
              ltac:(by vm_compute))
    as (e & _ & Hrun & _ & Honly & _).
  rewrite Hrun. f_equal. apply Honly.
  intros other e' [<-|[<-|[]]]; vm_compute; congruence.
Defined.




Lemma resume_and_then {A B} (t : Task A) (k : A -> result B) reply :
  resume (and_then t k) reply =
  match resume t reply with
  | Ok a => k a
  | Raise e => Raise e
  end.
Proof. done. Qed.



(** C10. The final edit is built from the user query and the current draft
    only: two states that agree on these give the editor the same task (the
    same prompt and the same treatment of the reply) and make the final-edit
    stage behave identically, whatever their feedback histories. *)
Theorem final_edit_ignores_feedback_history env self state1 state2 w :
  CouncilState.user_query state1 = CouncilState.user_query state2 ->
  CouncilState.current_draft state1 = CouncilState.current_draft state2 ->
  edit_task self state1 = edit_task self state2 /\
  final_edit env self state1 w = final_edit env self state2 w.
Proof.
  intros Hq Hd. unfold final_edit, edit_task, EditorAgent.edit_final_response.
  by rewrite Hq, Hd.
Qed.

Lemma final_edit_ignores_feedback_history_witness :
  let self := __init__ (sample_config 1) None in
  let state1 := initial_state self sample_query in
  let state2 :=
    Update.apply state1
      (round_written 1 [{| fb_agent_id := lit "council_member_0";
                           fb_feedback := lit "Too short." |}]) in
  CouncilState.feedback_history state1 <> CouncilState.feedback_history state2 /\
  final_edit sample_env self state1 fresh = final_edit sample_env self state2 fresh.
Proof.
  intros self state1 state2. split; [done|].
  by apply (final_edit_ignores_feedback_history sample_env self state1 state2 fresh).
Defined.

(** * Further properties *)

(** ** The wrapper and the roles *)

Lemma settle_flagged env history self messages key value e :
  settle env history
    (and_then (generate_response self messages)
       (fun response => Ok (AgentResponse.set_metadata key value response)))
  = Raise e <->
  provider env history {| req_agent := self; req_messages := messages |} = Raise e.
Proof.
  unfold settle. cbn [request and_then generate_response].
  destruct (provider _ _ _) as [reply|e']; [|split; by intros [= ->]].
  pose proof (resume_flagged_ok self messages key value reply) as Hok.
  destruct (resume _ reply); [|done]. split; intros; discriminate.
Qed.

(** X1. A role operation fails exactly when the model call it awaits fails,
    and then with the error of that call: the wrapper never raises on a
    reply, whatever its text. *)
Theorem role_failure_is_provider_failure env history e :
  (forall self user_query,
     let t := DraftAgent.create_initial_draft self user_query in
     settle env history t = Raise e <-> provider env history (request t) = Raise e) /\
  (forall self current_draft feedback,
     let t := DraftAgent.update_draft self current_draft feedback in
     settle env history t = Raise e <-> provider env history (request t) = Raise e) /\
  (forall member user_query current_draft round_number,
     let t := CouncilMember.provide_feedback member user_query current_draft
                round_number in
     settle env history t = Raise e <-> provider env history (request t) = Raise e) /\
  (forall self user_query final_draft debate_history,
     let t := EditorAgent.edit_final_response self user_query final_draft
                debate_history in
     settle env history t = Raise e <-> provider env history (request t) = Raise e) /\
  (forall self user_query initial_draft final_draft,
     let t := JudgeAgent.compare_drafts self user_query initial_draft final_draft in
     settle env history t = Raise e <-> provider env history (request t) = Raise e).
Proof.
  repeat split; try apply settle_flagged;
    try (intros H; by apply settle_flagged in H).
  - intros H. unfold settle, DraftAgent.create_initial_draft in *. cbn zeta in *.
    cbn [request generate_response] in *.
    destruct (provider _ _ _) as [reply|e']; [|by injection H as ->].
    destruct (resume_generate_response self [] reply) as (c & Hc & _).
    cbn [resume generate_response] in Hc, H. by rewrite Hc in H.
  - intros H. unfold settle. by rewrite H.
Qed.

(** X2. What the wrapper puts in a result: the stripped content; a [summary]
    entry exactly when the summary is not empty; a [token_usage] entry exactly
    when the reply carries a non-empty usage dictionary, and then with the
    three counts, a count the provider left out being 0; and no other
    entry. *)
Theorem generated_metadata self messages reply :
  exists main summary constructed,
    split_summary (AIMessage.content reply) = Ok (main, summary) /\
    resume (generate_response self messages) reply = Ok constructed /\
    AgentResponse.content constructed = main /\
    AgentResponse.metadata constructed !! lit "summary"
      = (if decide (summary = []) then None else Some (MStr summary)) /\
    AgentResponse.metadata constructed !! lit "token_usage"
      = match AIMessage.usage_metadata reply with
        | Some usage =>
            if decide (usage = ∅) then None else Some (MDict (token_usage_of usage))
        | None => None
        end /\
    (forall usage key,
       token_usage_of usage !! key
       = if decide (key = lit "input_tokens" \/ key = lit "output_tokens"
                    \/ key = lit "total_tokens")
         then Some (default 0 (usage !! key)) else None) /\
    (forall key, key <> lit "summary" -> key <> lit "token_usage" ->
                 AgentResponse.metadata constructed !! key = None).
Proof.
  destruct (split_summary_total (AIMessage.content reply)) as (main & summary & Hs).
  exists main, summary. cbn [resume generate_response]. rewrite Hs.
  eexists. split; [done|]. split; [done|]. cbn [AgentResponse.content AgentResponse.metadata].
  assert (Hne : lit "summary" <> lit "token_usage") by (by vm_compute).
  repeat split.
  - unfold usage_truthy.
    destruct summary, (AIMessage.usage_metadata reply) as [usage|];
      try destruct (decide (usage = ∅)); cbn;
      rewrite ?lookup_insert_ne by done;
      rewrite ?lookup_insert_eq, ?lookup_empty; done.
  - unfold usage_truthy, token_usage_of.
    destruct summary, (AIMessage.usage_metadata reply) as [usage|];
      try destruct (decide (usage = ∅)); cbn;
      rewrite ?lookup_insert_eq; try done;
      rewrite ?lookup_insert_ne by done; by rewrite ?lookup_empty.
  - intros usage key. unfold token_usage_of, get0.
    assert (H1 : lit "input_tokens" <> lit "output_tokens") by (by vm_compute).
    assert (H2 : lit "input_tokens" <> lit "total_tokens") by (by vm_compute).
    assert (H3 : lit "output_tokens" <> lit "total_tokens") by (by vm_compute).
    destruct (decide (key = lit "input_tokens")) as [->|N1].
    { rewrite lookup_insert_eq. by rewrite decide_True by auto. }
    rewrite lookup_insert_ne by done.
    destruct (decide (key = lit "output_tokens")) as [->|N2].
    { rewrite lookup_insert_eq. by rewrite decide_True by auto. }
    rewrite lookup_insert_ne by done.
    destruct (decide (key = lit "total_tokens")) as [->|N3].
    { rewrite lookup_insert_eq. by rewrite decide_True by auto. }
    rewrite lookup_insert_ne by done. rewrite lookup_empty.
    rewrite decide_False; [done|]. by intros [?|[?|?]].
  - intros key K1 K2.
    destruct summary, (usage_truthy _);
      rewrite ?lookup_insert_ne by done; apply lookup_empty.
Qed.

Lemma lit_inj (s t : string) : lit s = lit t -> s = t.
Proof.
  Transparent lit. unfold lit. Opaque lit. intros H.
  rewrite <- (string_of_list_ascii_of_string s), <- (string_of_list_ascii_of_string t).
  f_equal. revert H. generalize (list_ascii_of_string s) (list_ascii_of_string t).
  induction l as [|a l IH]; intros [|b l']; cbn; try done.
  intros [= Hab Hl]. f_equal; [|by apply IH].
  by rewrite <- (ascii_N_embedding a), <- (ascii_N_embedding b), Hab.
Qed.

Lemma str_of_int_inj (a b : Z) : str_of_int a = str_of_int b -> a = b.
Proof.
  Transparent str_of_int. unfold str_of_int. Opaque str_of_int.
  intros H. apply lit_inj in H. apply DecimalZ.to_int_inj.
  assert (Hnn : forall z, Z.to_int z <> Decimal.Pos Decimal.Nil
                          /\ Z.to_int z <> Decimal.Neg Decimal.Nil).
  { intros [|p|p]; cbn; split; try done; intros [= Hp];
      by apply DecimalPos.Unsigned.to_uint_nonnil in Hp. }
  destruct (Hnn a) as [A1 A2], (Hnn b) as [B1 B2].
  pose proof (NilZero.isi _ A1 A2) as Ia. pose proof (NilZero.isi _ B1 B2) as Ib.
  rewrite H in Ia. rewrite Ia in Ib. by injection Ib.
Qed.

(** X3. The council built from a configuration: one member per configured
    reviewer, in order; the member at position [i] has id [i], agent id
    [council_member_i], the label [Council Member i+1] (never the default
    [Critical Reviewer] label) and the model and temperature configured at
    that position; and no two members share an agent id. *)
Theorem council_members_identity config ui_callback :
  let members := council_members (__init__ config ui_callback) in
  length members = length (CouncilConfig.council_members config) /\
  NoDup (List.map (fun member => BaseAgent.agent_id (CouncilMember.base member))
           members) /\
  forall i agent_config,
    CouncilConfig.council_members config !! i = Some agent_config ->
    exists member,
      members !! i = Some member /\
      CouncilMember.member_id member = Z.of_nat i /\
      BaseAgent.agent_id (CouncilMember.base member)
        = lit "council_member_" ++ str_of_int (Z.of_nat i) /\
      BaseAgent.agent_type (CouncilMember.base member) = lit "CouncilMember" /\
      CouncilMember.perspective member
        = lit "Council Member " ++ str_of_int (Z.of_nat i + 1) /\
      BaseAgent.llm (CouncilMember.base member)
        = {| model := AgentConfig.model agent_config;
             temperature := AgentConfig.temperature agent_config |}.
Proof.
  intros members. subst members. cbn [council_members __init__].
  repeat split.
  - apply length_imap.
  - apply NoDup_alt. intros i j x Hi Hj.
    rewrite list_lookup_fmap, list_lookup_imap in Hi, Hj.
    destruct (CouncilConfig.council_members config !! i); [|done].
    destruct (CouncilConfig.council_members config !! j); [|done].
    cbn in Hi, Hj. rewrite <- Hj in Hi.
    apply (f_equal (default [])) in Hi. cbn [default] in Hi.
    apply app_inv_head in Hi. apply str_of_int_inj in Hi. lia.
  - intros i agent_config Hi. eexists. rewrite list_lookup_imap, Hi. cbn.
    split; [done|]. by repeat split.
Qed.

(** ** Whole runs: state, calls and failures *)

Lemma split_summary_stripped text main summary :
  split_summary text = Ok (main, summary) ->
  no_outer_space main /\ no_outer_space summary.
Proof.
  unfold split_summary, rsplit1. destruct (contains marker text).
  - destruct (rpartition marker text) as [[before after]|]; [|done].
    intros [= <- <-]. split; apply strip_no_outer_space.
  - intros [= <- <-]. split; [apply strip_no_outer_space|by split].
Qed.

Lemma resume_generate_response_content self messages reply constructed :
  resume (generate_response self messages) reply = Ok constructed ->
  exists summary,
    split_summary (AIMessage.content reply)
      = Ok (AgentResponse.content constructed, summary).
Proof.
  cbn [resume generate_response].
  destruct (split_summary (AIMessage.content reply)) as [[main summary]|]; [|done].
  intros [= <-]. by exists summary.
Qed.

Lemma resume_flagged_content self messages key value reply flagged :
  resume (and_then (generate_response self messages)
            (fun response => Ok (AgentResponse.set_metadata key value response)))
         reply = Ok flagged ->
  exists summary,
    split_summary (AIMessage.content reply)
      = Ok (AgentResponse.content flagged, summary).
Proof.
  rewrite resume_and_then.
  destruct (resume (generate_response self messages) reply) as [c|] eqn:Hc; [|done].
  intros [= <-]. by apply resume_generate_response_content in Hc.
Qed.

Section Invariants.
Variable g : StateGraph.
Variable I : Node.t * CouncilState.t * World -> Prop.

Lemma pregel_invariant limit : forall n state w,
  (forall n state w u w' n',
     I (n, state, w) -> node g n state w = (Ok u, w') ->
     next g n (Update.apply state u) = Some n' ->
     I (n', Update.apply state u, w')) ->
  I (n, state, w) ->
  Forall I (visited (pregel g limit n state w)).
Proof.
  induction limit as [|limit IH]; intros n state w Hstep Hhere; [constructor|].
  rewrite pregel_S. destruct (node g n state w) as [[u|e] w'] eqn:E;
    [|by repeat constructor].
  cbn zeta. destruct (next g n _) as [n'|] eqn:X; [|by repeat constructor].
  cbn [visited]. constructor; [done|]. apply IH; [done|by eapply Hstep].
Qed.

Lemma pregel_returned limit : forall n state w final,
  outcome (pregel g limit n state w) = Ok final ->
  exists v u w',
    In v (visited (pregel g limit n state w)) /\
    last (visited (pregel g limit n state w)) = Some v /\
    node g (fst (fst v)) (snd (fst v)) (snd v) = (Ok u, w') /\
    next g (fst (fst v)) (Update.apply (snd (fst v)) u) = None /\
    final = Update.apply (snd (fst v)) u /\
    end_world (pregel g limit n state w) = w'.
Proof.
  induction limit as [|limit IH]; intros n state w final; [done|].
  rewrite pregel_S. destruct (node g n state w) as [[u|e] w'] eqn:E; [|done].
  cbn zeta. destruct (next g n _) as [n'|] eqn:X.
  - cbn [outcome visited end_world]. intros H.
    destruct (IH _ _ _ _ H) as (v & u' & w1 & Hin & Hl & Hn & Hx & -> & Hw).
    exists v, u', w1. repeat split; try done; [by right|].
    destruct (visited _) as [|v' vs]; [done|]. exact Hl.
  - cbn [outcome visited end_world]. intros [= <-].
    exists (n, state, w), u, w'. cbn [fst snd]. repeat split; try done. by left.
Qed.

End Invariants.

Section StateKept.
Variable env : Env.
Variable self : t.
Local Abbreviation g := (_build_workflow env self).

Lemma state_kept_step user_query n state w u w' n' :
  state_kept self user_query (n, state, w) ->
  node g n state w = (Ok u, w') ->
  next g n (Update.apply state u) = Some n' ->
  state_kept self user_query (n', Update.apply state u, w').
Proof.
  intros (Hq & Hm & Hc & Hf & Hr & Hd) Hn Hx. unfold state_kept in *.
  cbn [fst snd] in *.
  destruct n; cbn [node _build_workflow] in Hn.
  - apply create_initial_draft_Ok in Hn as (response & _ & -> & _).
    cbn in Hx. injection Hx as <-. destruct Hd as [Hd Hfh].
    cbn. rewrite Hq, Hm, Hc, Hf, Hd, Hfh. by repeat split.
  - apply council_debate_Ok in Hn as (responses & _ & -> & _).
    assert (Hn' : n' <> Node.create_draft).
    { cbn in Hx. by destruct (should_continue_debate _ _); injection Hx as <-. }
    cbn. rewrite Hq, Hm, Hc, Hf, Hr, length_app, app_nil_r. cbn [length].
    repeat split; [lia|]. by destruct n'.
  - apply update_draft_Ok in Hn as (latest & response & _ & _ & -> & _).
    cbn in Hx. injection Hx as <-.
    cbn. rewrite Hq, Hm, Hc, Hf, Hr, app_nil_r, last_snoc. by repeat split.
  - done.
Qed.

(** X4. What a run keeps. In every state a run goes through, the query, the
    round limit and the stored callback are those of the start, no final
    response is set, the round counter equals the number of feedback rounds
    recorded, and (once the initial draft exists) the current draft is the
    last of the drafts; the state a run returns keeps all of this except
    that its final response is now set. *)
Theorem run_keeps_state limit user_query w :
  let r := execution env self limit user_query w in
  Forall (state_kept self user_query) (visited r) /\
  forall final, outcome r = Ok final ->
    CouncilState.user_query final = user_query /\
    CouncilState.max_rounds final = CouncilConfig.debate_rounds (config self) /\
    CouncilState.ui_callback final = ui_callback self /\
    CouncilState.current_round final
      = Z.of_nat (length (CouncilState.feedback_history final)) /\
    last (CouncilState.drafts final) = Some (CouncilState.current_draft final).
Proof.
  assert (Hall : Forall (state_kept self user_query)
                   (visited (execution env self limit user_query w))).
  { apply pregel_invariant; [intros; by eapply state_kept_step|].
    by repeat split. }
  split; [exact Hall|]. intros final Hfinal.
  destruct (pregel_returned _ _ _ _ _ _ Hfinal)
    as (v & u & w' & Hin & _ & Hn & Hx & -> & _).
  rewrite List.Forall_forall in Hall. destruct (Hall v Hin) as (Hq & Hm & Hc & Hf & Hr & Hd).
  destruct v as [[n state] wv]. cbn [fst snd] in *.
  destruct n; cbn [next _build_workflow] in Hx; try done;
    [by destruct (should_continue_debate _ _)|].
  cbn [node _build_workflow] in Hn.
  apply final_edit_Ok in Hn as (response & _ & -> & _).
  cbn. by rewrite !app_nil_r.
Qed.

(** X5. What [run] returns is what the wrapper made of the editor's reply:
    the last step of the run is the final edit, its model call was answered,
    and the text returned is that reply cut before its last "Summary:" and
    stripped, so it neither starts nor ends with whitespace. *)
Theorem run_returns_edited_text limit user_query w text :
  fst (run env self limit user_query w) = Ok text ->
  exists state w' reply summary,
    last (visited (execution env self limit user_query w))
      = Some (Node.final_edit, state, w') /\
    provider env (calls w') (request (edit_task self state)) = Ok reply /\
    split_summary (AIMessage.content reply) = Ok (text, summary) /\
    no_outer_space text.
Proof.
  unfold run. cbn [fst].
  destruct (outcome (execution env self limit user_query w)) as [final|] eqn:Hfinal;
    [|done].
  intros [= <-].
  destruct (pregel_returned _ _ _ _ _ _ Hfinal)
    as (v & u & w' & Hin & Hlast & Hn & Hx & -> & _).
  destruct v as [[n state] wv]. cbn [fst snd] in *.
  destruct n; cbn [next _build_workflow] in Hx; try done;
    [by destruct (should_continue_debate _ _)|].
  cbn [node _build_workflow] in Hn.
  apply final_edit_Ok in Hn as (response & Hs & -> & _).
  unfold settle in Hs.
  destruct (provider env (calls wv) (request (edit_task self state))) as [reply|] eqn:Hp;
    [|done].
  apply resume_flagged_content in Hs as [summary Hsplit].
  exists state, wv, reply, summary.
  cbn [Update.apply final_written Update.final_response CouncilState.final_response default].
  repeat split; try done; by apply split_summary_stripped in Hsplit as [[? ?] _].
Qed.
End StateKept.

Section Calls.
Variable env : Env.
Variable self : t.
Local Abbreviation g := (_build_workflow env self).


Lemma settle_feedback_task history member state e :
  settle env history (feedback_task member state) = Raise e ->
  provider env history (request (feedback_task member state)) = Raise e.
Proof. apply settle_flagged. Qed.

(** Every node appends its call, or nothing when it stopped before it. *)
Lemma node_calls n state w :
  let w' := snd (node g n state w) in
  calls w' = calls w \/ calls w' = calls w ++ [call_of self (n, state, w)].
Proof.
  destruct n; cbn [node _build_workflow call_of fst snd]; node_unfold;
    try destruct (last (CouncilState.feedback_history state)) as [latest|];
    destruct (ui_callback self) as [cb|]; cbn [calls notified snd];
    try (destruct (cb _ _); cbn [calls notified snd]; [|by left]);
    try (by left);
    try (destruct (settle _ _ _) as [response|]; cbn [calls notified snd]);
    try (destruct (join_results _ _) as [responses|]; cbn [calls notified snd]);
    try (destruct (cb _ _)); cbn [calls notified snd]; by right.
Qed.

Lemma node_ok_calls n state w u w' :
  node g n state w = (Ok u, w') ->
  calls w' = calls w ++ [call_of self (n, state, w)].
Proof.
  destruct n; cbn [node _build_workflow call_of fst snd]; intros H.
  - by apply create_initial_draft_Ok in H as (? & _ & _ & ->).
  - by apply council_debate_Ok in H as (? & _ & _ & ->).
  - apply update_draft_Ok in H as (latest & ? & Hl & _ & _ & ->). by rewrite Hl.
  - by apply final_edit_Ok in H as (? & _ & _ & ->).
Qed.




End Calls.

Section Runs.
Variable env : Env.
Variable self : t.
Local Abbreviation g := (_build_workflow env self).

Lemma pregel_calls_ok limit : forall n state w final,
  let r := pregel g limit n state w in
  outcome r = Ok final ->
  calls (end_world r) = calls w ++ List.map (call_of self) (visited r).
Proof.
  induction limit as [|limit IH]; intros n state w final; [done|].
  cbn zeta. rewrite pregel_S. destruct (node g n state w) as [[u|e] w'] eqn:E; [|done].
  pose proof (node_ok_calls env self _ _ _ _ _ E) as Hc.
  cbn zeta. destruct (next g n _) as [n'|] eqn:X; cbn [outcome visited end_world].
  - intros H. rewrite (IH _ _ _ _ H), Hc. cbn [List.map]. by rewrite <- app_assoc.
  - intros _. by rewrite Hc.
Qed.

Lemma pregel_calls limit : forall n state w,
  let r := pregel g limit n state w in
  exists made,
    calls (end_world r) = calls w ++ made /\
    Forall (fun c => exists v, In v (visited r) /\ c = call_of self v) made.
Proof.
  induction limit as [|limit IH]; intros n state w; cbn zeta.
  - exists []. cbn. by rewrite app_nil_r.
  - rewrite pregel_S. pose proof (node_calls env self n state w) as Hc.
    destruct (node g n state w) as [[u|e] w'] eqn:E; cbn [snd] in Hc.
    + cbn zeta. destruct (next g n _) as [n'|] eqn:X; cbn [outcome visited end_world].
      * destruct (IH n' (Update.apply state u) w') as (made & Hm & Hall).
        destruct Hc as [Hc|Hc]; rewrite Hm, Hc.
        -- exists made. split; [done|]. eapply Forall_impl; [exact Hall|].
           intros c (v & Hv & ->). exists v. split; [by right|done].
        -- eexists. rewrite <- app_assoc. split; [done|]. cbn [app].
           constructor; [exists (n, state, w); split; [by left|done]|].
           eapply Forall_impl; [exact Hall|].
           intros c (v & Hv & ->). exists v. split; [by right|done].
      * destruct Hc as [Hc|Hc]; rewrite Hc.
        -- exists []. by rewrite app_nil_r.
        -- eexists. split; [done|]. constructor; [|constructor].
           exists (n, state, w). split; [by left|done].
    + cbn [outcome visited end_world]. destruct Hc as [Hc|Hc]; rewrite Hc.
      * exists []. by rewrite app_nil_r.
      * eexists. split; [done|]. constructor; [|constructor].
        exists (n, state, w). split; [by left|done].
Qed.

Lemma sum_cons x l : list_sum (x :: l) = (x + list_sum l)%nat.
Proof. done. Qed.

Lemma requests_call_of v :
  length (requests (call_of self v))
  = requests_by (length (council_members self)) (fst (fst v)).
Proof.
  destruct v as [[[] state] w]; cbn [call_of requests requests_by fst snd]; try done.
  unfold feedback_tasks. by rewrite !length_map.
Qed.

Lemma requested_app cs cs' : requested (cs ++ cs') = requested cs ++ requested cs'.
Proof. apply flat_map_app. Qed.

Lemma requested_visited vs :
  length (requested (List.map (call_of self) vs))
  = list_sum (List.map (requests_by (length (council_members self)))
                (List.map (fun v => fst (fst v)) vs)).
Proof.
  induction vs as [|v vs IH]; [done|].
  cbn [List.map requested flat_map]. rewrite sum_cons.
  rewrite length_app, requests_call_of. unfold requested in IH. by rewrite IH.
Qed.

Lemma requests_from_debate members k :
  list_sum (List.map (requests_by members) (stages_from_debate k))
  = (S k * S members)%nat.
Proof.
  induction k as [|k IH].
  - cbn. lia.
  - cbn [stages_from_debate List.map]. rewrite !sum_cons, IH.
    cbn [requests_by]. lia.
Qed.

(** X6. The model calls of a successful run: exactly one call per executed
    stage, in stage order, each the call of that stage on the state it found;
    with [R] debate rounds and [n] council members that is [R * (n + 1) + 1]
    requests to the provider. *)
Theorem run_model_calls limit user_query w final :
  let r := execution env self limit user_query w in
  outcome r = Ok final ->
  calls (end_world r) = calls w ++ List.map (call_of self) (visited r) /\
  length (requested (calls (end_world r)))
    = (length (requested (calls w))
       + S (updates_planned self) * S (length (council_members self)) + 1)%nat.
Proof.
  intros r Hfinal.
  pose proof (pregel_calls_ok limit _ _ _ _ Hfinal) as Hcalls.
  destruct (execution_safe env self limit user_query w final Hfinal) as (Hst & _).
  split; [exact Hcalls|].
  fold r in Hst. unfold stages in Hst.
  change (pregel g limit (entry g) (initial_state self user_query) w) with r in Hcalls.
  rewrite Hcalls, requested_app, length_app, requested_visited, Hst.
  cbn [List.map]. rewrite sum_cons, requests_from_debate.
  cbn [requests_by]. lia.
Qed.
End Runs.

Section Bounded.
Variable g : StateGraph.
Variable I : Node.t * CouncilState.t * World -> Prop.
Variable m : Node.t -> CouncilState.t -> nat.
Hypothesis I_step : forall n state w u w' n',
  I (n, state, w) -> node g n state w = (Ok u, w') ->
  next g n (Update.apply state u) = Some n' ->
  I (n', Update.apply state u, w') /\
  (m n' (Update.apply state u) < m n state)%nat.
Hypothesis m_pos : forall n state, (0 < m n state)%nat.

(** With a measure that every step decreases, a run takes at most as many
    steps as the measure says, and with that many allowed it can only fail
    in its last node. *)
Lemma pregel_bounded limit : forall n state w,
  I (n, state, w) ->
  let r := pregel g limit n state w in
  (length (visited r) <= m n state)%nat /\
  ((m n state <= limit)%nat -> forall e, outcome r = Raise e ->
   exists v w',
     last (visited r) = Some v /\
     node g (fst (fst v)) (snd (fst v)) (snd v) = (Raise e, w') /\
     end_world r = w').
Proof.
  induction limit as [|limit IH]; intros n state w Hhere; cbn zeta.
  - cbn. split; [lia|]. pose proof (m_pos n state). lia.
  - rewrite pregel_S. destruct (node g n state w) as [[u|e'] w'] eqn:E.
    + cbn zeta. destruct (next g n _) as [n'|] eqn:X;
        cbn [outcome visited end_world length].
      * destruct (I_step _ _ _ _ _ _ Hhere E X) as [Hnext Hlt].
        destruct (IH _ _ _ Hnext) as [Hlen Hfail]. split; [lia|].
        intros Hlim e He. destruct (Hfail ltac:(lia) e He) as (v & w1 & Hl & Hn & Hw).
        exists v, w1. split; [|done].
        destruct (visited _) as [|v' vs]; [done|]. exact Hl.
      * pose proof (m_pos n state). split; [lia|]. done.
    + cbn [outcome visited end_world length]. pose proof (m_pos n state).
      split; [lia|]. intros _ e [= <-]. by exists (n, state, w), w'.
Qed.
End Bounded.

Section Causes.
Variable env : Env.
Variable self : t.
Local Abbreviation g := (_build_workflow env self).

Lemma stages_due_step n state w u w' n' :
  (n = Node.update_draft ->
   CouncilState.current_round state < CouncilState.max_rounds state) ->
  node g n state w = (Ok u, w') ->
  next g n (Update.apply state u) = Some n' ->
  (n' = Node.update_draft ->
   CouncilState.current_round (Update.apply state u)
   < CouncilState.max_rounds (Update.apply state u)) /\
  (stages_due n' (Update.apply state u) < stages_due n state)%nat.
Proof.
  intros Hhere Hn Hx. destruct n; cbn [node _build_workflow] in Hn.
  - apply create_initial_draft_Ok in Hn as (response & _ & -> & _).
    cbn in Hx. injection Hx as <-. split; [done|].
    unfold stages_due, rounds_left. cbn. lia.
  - apply council_debate_Ok in Hn as (responses & _ & -> & _).
    cbn [next _build_workflow] in Hx.
    rewrite should_continue_after_debate in Hx.
    destruct (CouncilState.max_rounds state <=? CouncilState.current_round state + 1)
      eqn:G; injection Hx as <-.
    + split; [done|]. unfold stages_due. lia.
    + apply Z.leb_gt in G. split; [intros _; cbn; lia|].
      unfold stages_due, rounds_left. cbn. lia.
  - apply update_draft_Ok in Hn as (latest & response & _ & _ & -> & _).
    cbn in Hx. injection Hx as <-. split; [done|].
    specialize (Hhere eq_refl). unfold stages_due, rounds_left. cbn. lia.
  - done.
Qed.

Lemma stages_due_pos n state : (0 < stages_due n state)%nat.
Proof. destruct n; unfold stages_due; lia. Qed.

Lemma execution_bounded limit user_query w :
  let r := execution env self limit user_query w in
  (length (visited r) <= 2 * updates_planned self + 3)%nat /\
  ((2 * updates_planned self + 3 <= limit)%nat -> forall e, outcome r = Raise e ->
   exists v w',
     last (visited r) = Some v /\
     node g (fst (fst v)) (snd (fst v)) (snd v) = (Raise e, w') /\
     end_world r = w').
Proof.
  apply (pregel_bounded g
           (fun v => fst (fst v) = Node.update_draft ->
                     CouncilState.current_round (snd (fst v))
                     < CouncilState.max_rounds (snd (fst v)))
           stages_due).
  - intros n state w0 u w' n' Hhere Hn Hx. cbn [fst snd] in *.
    by eapply stages_due_step.
  - apply stages_due_pos.
  - done.
Qed.

(** X7. Every run stays within a fixed number of stages: at most
    [2 * (R - 1) + 3] of them, whatever the provider answers, whatever the
    callback does and however many supersteps the runtime would allow. *)
Theorem run_stage_bound limit user_query w :
  let r := execution env self limit user_query w in
  (length (stages r) <= 2 * updates_planned self + 3)%nat /\
  (length (stages r) <= limit)%nat.
Proof.
  cbn zeta. unfold stages. rewrite length_map. split.
  - apply execution_bounded.
  - unfold execution, ainvoke. generalize (entry g) (initial_state self user_query) w.
    induction limit as [|limit IH]; intros n state w0; [done|].
    rewrite pregel_S. destruct (node g n state w0) as [[u|e] w'];
      [|cbn; lia].
    cbn zeta. destruct (next g n _) as [n'|]; [|cbn; lia].
    cbn [visited length]. specialize (IH n' (Update.apply state u) w'). lia.
Qed.

End Causes.

Lemma call_of_agents self v q :
  In q (requests (call_of self v)) -> In (req_agent q) (agents_of self).
Proof.
  destruct v as [[[] state] w]; cbn [call_of requests fst snd].
  - intros [<-|[]]. by left.
  - unfold feedback_tasks. rewrite map_map. intros H.
    apply in_map_iff in H as (member & <- & Hm).
    right. right.
    change (In (CouncilMember.base member)
              (List.map CouncilMember.base (council_members self))).
    by apply in_map.
  - intros [<-|[]]. by left.
  - intros [<-|[]]. right. by left.
Qed.

Lemma built_agent_types config ui_callback agent :
  In agent (agents_of (__init__ config ui_callback)) ->
  In (BaseAgent.agent_type agent)
     [lit "DraftAgent"; lit "CouncilMember"; lit "EditorAgent"].
Proof.
  unfold agents_of. cbn [__init__ draft_agent editor_agent council_members].
  intros [<-|[<-|H]].
  - by left.
  - right. right. by left.
  - apply in_map_iff in H as (member & <- & Hm).
    apply list_elem_of_In, elem_of_lookup_imap_1 in Hm as (i & c & -> & _).
    right. by left.
Qed.

(** X9. The provider is only ever asked on behalf of the workflow's own
    agents: every request of every run, successful or not, comes from the
    drafter, the editor or a council member the workflow built, and never
    from a judge. *)
Theorem run_calls_own_agents env config ui_callback limit user_query w :
  let self := __init__ config ui_callback in
  let r := execution env self limit user_query w in
  exists made,
    calls (end_world r) = calls w ++ made /\
    Forall (fun q =>
              In (req_agent q) (agents_of self) /\
              In (BaseAgent.agent_type (req_agent q))
                 [lit "DraftAgent"; lit "CouncilMember"; lit "EditorAgent"] /\
              forall model_name temperature,
                req_agent q <> JudgeAgent.__init__ model_name temperature)
           (requested made).
Proof.
  intros self r.
  destruct (pregel_calls env self limit (entry (_build_workflow env self))
              (initial_state self user_query) w) as (made & Hm & Hall).
  exists made. split; [exact Hm|].
  apply List.Forall_forall. intros q Hq. unfold requested in Hq.
  apply in_flat_map in Hq as (c & Hc & Hq).
  rewrite List.Forall_forall in Hall. destruct (Hall c Hc) as (v & _ & ->).
  apply call_of_agents in Hq.
  pose proof (built_agent_types config ui_callback _ Hq) as Ht.
  split; [done|]. split; [done|].
  intros model_name temperature Heq. rewrite Heq in Ht.
  cbn in Ht. destruct Ht as [Ht|[Ht|[Ht|[]]]]; by vm_compute in Ht.
Qed.

(** X10. A node announces its status before it asks the provider: when the
    callback raises on that status, the node raises the same error, the
    notification is the only trace it leaves and no model call is made; a
    run whose first notification fails so never reaches the provider. *)
Theorem status_failure_prevents_call env self cb e :
  ui_callback self = Some cb ->
  (forall n state w,
     cb (notified w) (status_of n state) = Raise e ->
     node (_build_workflow env self) n state w
     = (Raise e,
        {| calls := calls w; notified := notified w ++ [status_of n state] |})) /\
  (forall limit user_query w,
     cb (notified w)
        (status_of Node.create_draft (initial_state self user_query)) = Raise e ->
     let r := execution env self (S limit) user_query w in
     outcome r = Raise e /\ calls (end_world r) = calls w).
Proof.
  intros Hcb.
  assert (Hnode : forall n state w,
            cb (notified w) (status_of n state) = Raise e ->
            node (_build_workflow env self) n state w
            = (Raise e,
               {| calls := calls w;
                  notified := notified w ++ [status_of n state] |})).
  { intros n state w He.
    destruct n; cbn [node _build_workflow status_of] in *; node_unfold;
      rewrite Hcb; unfold status_of, debate_status, ev in He;
      cbn [calls notified]; by rewrite He. }
  split; [exact Hnode|].
  intros limit user_query w He. cbn zeta. unfold execution, ainvoke.
  cbn [entry _build_workflow].
  erewrite pregel_raise; [|by apply Hnode]. done.
Qed.

Lemma status_failure_prevents_call_witness :
  let self := __init__ (sample_config 2) (Some failing_callback) in
  let r := execution sample_env self 5 sample_query fresh in
  outcome r = Raise (CallbackError 1) /\ calls (end_world r) = [].
Proof.
  intros self.
  destruct (status_failure_prevents_call sample_env self failing_callback
              (CallbackError 1) eq_refl) as [_ Hrun].
  by apply (Hrun 4%nat sample_query fresh).
Defined.

Lemma run_returns_edited_text_witness :
  let self := __init__ (sample_config 1) None in
  exists state w' reply summary,
    last (visited (execution sample_env self 3 sample_query fresh))
      = Some (Node.final_edit, state, w') /\
    provider sample_env (calls w') (request (edit_task self state)) = Ok reply /\
    split_summary (AIMessage.content reply) = Ok (lit "Looks fine.", summary) /\
    no_outer_space (lit "Looks fine.").
Proof.
  apply (run_returns_edited_text sample_env (__init__ (sample_config 1) None) 3
           sample_query fresh (lit "Looks fine.")).
  by vm_compute.
Defined.

Lemma run_model_calls_witness :
  let r := execution sample_env (__init__ (sample_config 2) None) 5 sample_query
             fresh in
  is_ok (outcome r) /\ length (requested (calls (end_world r))) = 7%nat.
Proof.
  intros r. assert (Hok : is_ok (outcome r)) by (by vm_compute).
  split; [exact Hok|].
  destruct (outcome r) as [final|] eqn:Hfinal; [|done].
  destruct (run_model_calls sample_env (__init__ (sample_config 2) None) 5
              sample_query fresh final Hfinal) as [_ Hcount].
  exact Hcount.
Defined.


(** ** The command line and the configuration *)

Import SimpleCouncilCLI.

Lemma event_types_distinct :
  lit "status" <> lit "draft_created" /\ lit "status" <> lit "feedback_round" /\
  lit "status" <> lit "draft_updated" /\ lit "status" <> lit "final_response" /\
  lit "draft_created" <> lit "feedback_round" /\
  lit "draft_created" <> lit "draft_updated" /\
  lit "draft_created" <> lit "final_response" /\
  lit "feedback_round" <> lit "draft_updated" /\
  lit "feedback_round" <> lit "final_response" /\
  lit "draft_updated" <> lit "final_response".
Proof. repeat split; by vm_compute. Qed.

Lemma reviewer_lines_empty (feedback : list FeedbackEntry) :
  flat_map (fun fb =>
              let summary := fb_get fb (lit "summary") in
              if negb (bool_decide (summary = []))
              then [console_print (lit "  " ++ [8226%N] ++ lit " "
                                   ++ fb_agent_id fb ++ lit ": " ++ summary)]
              else [])
           feedback = [].
Proof.
  induction feedback as [|fb feedback IH]; [done|].
  cbn [flat_map]. cbn zeta in IH |- *. rewrite IH, app_nil_r. unfold fb_get.
  rewrite decide_False by (by vm_compute).
  rewrite decide_False by (by vm_compute).
  by rewrite bool_decide_eq_true_2.
Qed.

(** X11. The command line never shows what a reviewer said: for a feedback
    round the handler prints the headline of the round and nothing else,
    however many reviewers answered and whatever they wrote, because the
    entries the debate stores carry an agent id and the feedback but no
    summary. *)
Theorem feedback_round_prints_headline_only render describe progress_live
    round feedback :
  handle_workflow_event render describe progress_live (lit "feedback_round")
    (PRound round feedback)
  = Done [console_print ([128172%N] ++ lit " [blue]Debate round "
                         ++ str_of_int round ++ lit " summaries:[/blue]")].
Proof.
  destruct event_types_distinct as (_ & H1 & _ & _ & H2 & _).
  unfold handle_workflow_event.
  rewrite decide_False by (intros H; by symmetry in H).
  rewrite decide_False by (intros H; by symmetry in H).
  rewrite decide_True by done. do 2 f_equal. apply reviewer_lines_empty.
Qed.

Section Events.
Variable env : Env.
Variable self : t.
Local Abbreviation g := (_build_workflow env self).


End Events.








(** X14. A valid setup is not yet a full configuration. [get_full_config]
    returns a configuration exactly when the file is there, its text parses
    and validates, and the key in the environment is not empty; whenever it
    does, [has_valid_setup] holds; but [has_valid_setup] also holds when the
    file does not parse or the key is the empty string, and then
    [get_full_config] returns nothing. *)
Theorem full_config_needs_more_than_valid_setup parse self o :
  let full := fst (SecureConfigManager.get_full_config parse self o) in
  let path := SecureConfigManager.config_path self in
  (forall c key,
     full = Some (c, key) <->
     exists text,
       files o !! path = Some text /\ parse text = Some c /\
       environ o !! lit "OPENAI_API_KEY" = Some key /\ key <> []) /\
  (is_Some full -> SecureConfigManager.has_valid_setup self o = true) /\
  (SecureConfigManager.has_valid_setup self o = true /\ full = None <->
   exists text key,
     files o !! path = Some text /\
     environ o !! lit "OPENAI_API_KEY" = Some key /\
     (parse text = None \/ key = [])).
Proof.
  cbn zeta.
  unfold SecureConfigManager.get_full_config, SecureConfigManager.load_config,
    SecureConfigManager.has_valid_setup, SecureConfigManager.config_exists,
    SecureConfigManager.get_api_key.
  destruct (files o !! SecureConfigManager.config_path self) as [text|] eqn:Hf;
    [destruct (parse text) as [c0|] eqn:Hp|];
    destruct (environ o !! lit "OPENAI_API_KEY") as [[|k key0]|] eqn:He;
    cbn [fst andb].
  all: split;
    [ intros c key; split; [intros H | intros (t & Ht & Hpt & Hk & Hne)]
    | split; [intros [x Hx]
             | split; [intros [Hv Hn] | intros (t & k' & Ht & Hk & Hor)]]].
  all: simplify_eq; try done.
  all: try (destruct Hor; simplify_eq; done).
  all: try (eexists; by repeat split).
  all: try (do 2 eexists; by eauto).
  all: try (split; [|done]).
  all: rewrite ?bool_decide_eq_true_2 by eauto; try done.
Qed.
